(** * dino_ventures: the wallet ledger

    A shallow embedding of the posting engine of the internal wallet service
    ([app/services/ledger.py]), of the rows it works on ([app/models.py]), of
    its exceptions ([app/exceptions.py]), of the unit of work the endpoints
    wrap around it ([app/routers/wallet.py], [app/database.py]) and of the
    seed data ([seed.py]), followed by the properties of the ledger.

    Conventions.  A table is a finite map from its unique key to its row:
    [accounts] is keyed by the primary key [Account.id], [transactions] by the
    unique [reference_id].  Python integers are unbounded, so amounts and
    balances are [Z]; the range of the [BigInteger] columns is the store's
    and is not modelled.  Timestamps ([created_at]) and the primary key of a
    posting are assigned by the store, are never read by the service and are
    left out of the rows, and so is the [users] table.  A [SELECT] without
    [ORDER BY] returns its rows in an order that the store chooses
    ([RowOrder]); what is proved of the endpoints is proved for every such
    order. *)

From Stdlib Require Import ZArith Lia.
From stdpp Require Import base tactics option list sorting gmap sets strings pretty.

Open Scope Z_scope.

(** ** Python built-ins used by the service *)

Module builtins.

(** [sum(xs)], over integers. *)
Fixpoint sum (xs : list Z) : Z :=
  match xs with
  | [] => 0
  | x :: xs => x + sum xs
  end.

(** [sorted(xs)], over integers. *)
Definition sorted (xs : list Z) : list Z := merge_sort Z.le xs.

(** [set(xs)], over integers. *)
Definition set (xs : list Z) : gset Z := list_to_set xs.

(** [list(s)] of a set.  The iteration order of a Python set is an
    implementation detail; the order of [elements] stands for it, and no
    property below depends on which order it is. *)
Definition list (s : gset Z) : list Z := elements s.

End builtins.

(** ** app/models.py *)

Inductive TransactionType := TOPUP | PURCHASE | BONUS | REFUND.

Module Account.
(** A row of [accounts]; its primary key [id] is the key of the table. *)
Record t := Build {
  user_id : option Z;
  name : string;
  currency : string;
  balance : Z;
  version : Z
}.

(** [account.balance = b] *)
Definition set_balance (a : t) (b : Z) : t :=
  {| user_id := user_id a; name := name a; currency := currency a;
     balance := b; version := version a |}.
End Account.

Module Transaction.
Record t := Build {
  id : Z;
  reference_id : string;
  type : TransactionType;
  description : string
}.
End Transaction.

Module Posting.
Record t := Build {
  transaction_id : Z;
  account_id : Z;
  amount : Z
}.
End Posting.

(** ** app/exceptions.py, and the built-in exceptions the service can raise *)

Inductive Exception :=
| ValueError (total_amount : Z)
| IdempotencyError (reference_id : string)
| AccountNotFoundError (account_id : Z)
| InsufficientFundsError (account_id : Z)
| KeyError (account_id : Z)
| IndexError
| IntegrityError (reference_id : string)
| MultipleResultsFound
| HTTPException (status_code : Z) (detail : string).

(** [isinstance(e, WalletException)] *)
Definition is_WalletException (e : Exception) : bool :=
  match e with
  | IdempotencyError _ | AccountNotFoundError _ | InsufficientFundsError _ => true
  | ValueError _ | KeyError _ | IndexError | IntegrityError _
  | MultipleResultsFound | HTTPException _ _ => false
  end.

(** [str(e)].  The messages of the exceptions of [app/exceptions.py] and of
    the [ValueError] of the service are those the code builds; the endpoints
    ask for the text of a [WalletException] only, and a short text stands
    for that of the others. *)
Definition str (e : Exception) : string :=
  match e with
  | InsufficientFundsError account_id =>
      "Insufficient funds in account " +:+ pretty account_id
  | AccountNotFoundError account_id =>
      "Account " +:+ pretty account_id +:+ " not found"
  | IdempotencyError reference_id =>
      "Transaction with reference_id '" +:+ reference_id +:+ "' already exists"
  | ValueError total_amount =>
      "Transaction entries do not sum to zero. Sum: " +:+ pretty total_amount
  | KeyError account_id => pretty account_id
  | IndexError => "list index out of range"
  | IntegrityError _ => "duplicate key value violates unique constraint"
  | MultipleResultsFound =>
      "Multiple rows were found when one or none was required"
  | HTTPException _ detail => detail
  end%string.

(** ** app/database.py: the store and a session on it *)

Module Database.

(** The three tables, and the sequence that numbers the transactions. *)
Record Store := Build_Store {
  accounts : gmap Z Account.t;
  transactions : gmap string Transaction.t;
  postings : list Posting.t;
  transactions_id_seq : Z
}.

(** What a session does, in the order it does it. *)
Inductive Event :=
| SelectTransaction (reference_id : string)
| SelectAccountsForUpdate (ids : list Z)
| SelectAccount (id : Z)
| SelectAccountByName (name : string)
| SelectAccountsByUser (user_id : Z)
| FlushTransaction (t : Transaction.t)
| SetBalance (account_id : Z) (balance : Z)
| AddPosting (p : Posting.t)
| Commit.

(** An [AsyncSession]: the store as committed, the session's view of it
    with the changes it has made and not yet committed, and the trace of
    what it did. *)
Record Session := Build_Session {
  durable : Store;
  view : Store;
  trace : list Event
}.

Inductive Outcome (A : Type) :=
| Return (a : A)
| Raise (e : Exception).
Arguments Return {A} a.
Arguments Raise {A} e.

(** The order in which the store returns the rows of a [SELECT] that has no
    [ORDER BY]: [returned db ids] is the order in which the store [db]
    returns the rows [ids].  The order is the store's to choose, and it may
    choose another once a row has been written; all a caller can rely on
    is that the rows returned are the rows that match, each once. *)
Class RowOrder := {
  returned : Store → list Z → list Z;
  returned_Permutation db ids : returned db ids ≡ₚ ids
}.

(** Two such orders: by ascending id, and with the row [x] ahead of the
    others. *)
Definition by_id : RowOrder :=
  {| returned _ ids := ids;
     returned_Permutation _ ids := Permutation_refl ids |}.

Definition first_row (x : Z) : RowOrder :=
  {| returned _ ids := filter (λ y, y = x) ids ++ filter (λ y, ¬ y = x) ids;
     returned_Permutation _ ids := filter_app_complement (λ y, y = x) ids |}.

(** A computation in a session: it returns or raises, and leaves the
    session in the state it reached. *)
Definition M (A : Type) : Type := Session → Outcome A * Session.

Definition ret {A} (a : A) : M A := λ s, (Return a, s).
Definition raise {A} (e : Exception) : M A := λ s, (Raise e, s).
Definition bind {A B} (m : M A) (k : A → M B) : M B :=
  λ s, match m s with
       | (Return a, s') => k a s'
       | (Raise e, s') => (Raise e, s')
       end.

Definition emit (e : Event) : M unit :=
  λ s, (Return tt,
        {| durable := durable s; view := view s; trace := trace s ++ [e] |}).
Definition read {A} (f : Store → A) : M A := λ s, (Return (f (view s)), s).
Definition write (f : Store → Store) : M unit :=
  λ s, (Return tt,
        {| durable := durable s; view := f (view s); trace := trace s |}).

(** [try: body / except WalletException as e: raise handler(e)] *)
Definition except_WalletException {A} (body : M A)
    (handler : Exception → Exception) : M A :=
  λ s, match body s with
       | (Return a, s') => (Return a, s')
       | (Raise e, s') =>
           if is_WalletException e then (Raise (handler e), s')
           else (Raise e, s')
       end.

(** [await db.commit()]: the view becomes the committed store. *)
Definition commit : M unit :=
  λ s, (Return tt,
        {| durable := view s; view := view s; trace := trace s ++ [Commit] |}).

(** [get_db]: a request runs in a session of its own, which is closed when
    the request ends, however it ends.  Closing rolls back what was not
    committed; the numbers drawn from a sequence are not given back. *)
Definition open (db : Store) : Session :=
  {| durable := db; view := db; trace := [] |}.
Definition close (s : Session) : Store :=
  {| accounts := accounts (durable s);
     transactions := transactions (durable s);
     postings := postings (durable s);
     transactions_id_seq := transactions_id_seq (view s) |}.
Definition get_db {A} (request : M A) (db : Store) : Outcome A * Store :=
  let (outcome, s) := request (open db) in (outcome, close s).

Definition with_accounts (accs : gmap Z Account.t) (db : Store) : Store :=
  {| accounts := accs; transactions := transactions db;
     postings := postings db; transactions_id_seq := transactions_id_seq db |}.
Definition with_postings (ps : list Posting.t) (db : Store) : Store :=
  {| accounts := accounts db; transactions := transactions db;
     postings := ps; transactions_id_seq := transactions_id_seq db |}.

End Database.

Notation "x <- m ;; k" := (Database.bind m (λ x, k))
  (at level 100, m at next level, right associativity).
Notation "m ;; k" := (Database.bind m (λ _, k))
  (at level 100, right associativity).

(** ** The statements the service and the endpoints run in a session *)

Module Query.
Import Database.

(** [select(Transaction).where(Transaction.reference_id == reference_id)],
    then [scalar_one_or_none()]: [reference_id] is unique, so there is at
    most one row. *)
Definition transaction_by_reference (reference_id : string)
  : M (option Transaction.t) :=
  emit (SelectTransaction reference_id) ;;
  read (λ db, transactions db !! reference_id).

(** [select(Account).where(Account.id.in_(ids)).order_by(Account.id)
    .with_for_update()], then [scalars().all()]: the rows whose id is among
    [ids], each once, by ascending id.  A loaded row is an object of the
    session, named here by its primary key. *)
Definition rows_for_update (ids : list Z) (db : Store) : list Z :=
  builtins.sorted (elements (filter (λ i, i ∈ ids) (dom (accounts db)))).

Definition accounts_for_update (ids : list Z) : M (list Z) :=
  emit (SelectAccountsForUpdate ids) ;;
  read (rows_for_update ids).

(** [select(Account).where(Account.id == account_id)], then
    [scalar_one_or_none()]. *)
Definition account_by_id (account_id : Z) : M (option Account.t) :=
  emit (SelectAccount account_id) ;;
  read (λ db, accounts db !! account_id).

(** [self.db.add(transaction)] and [await self.db.flush()]: the store
    numbers the row from its sequence and checks the unique
    [reference_id]. *)
Definition add_and_flush (reference_id : string) (type : TransactionType)
    (description : string) : M Transaction.t :=
  seq <- read transactions_id_seq ;;
  existing <- read (λ db, transactions db !! reference_id) ;;
  match existing with
  | Some _ => raise (IntegrityError reference_id)
  | None =>
      let transaction :=
        {| Transaction.id := seq; Transaction.reference_id := reference_id;
           Transaction.type := type; Transaction.description := description |} in
      emit (FlushTransaction transaction) ;;
      write (λ db, {| accounts := accounts db;
                      transactions := <[reference_id := transaction]> (transactions db);
                      postings := postings db;
                      transactions_id_seq := seq + 1 |}) ;;
      ret transaction
  end.

(** [accounts_map[account_id]].  The dictionary maps the id of each loaded
    account to the session's object for that row: its keys are kept, and
    the object is read from the session, so that an assignment to it is
    seen by every later lookup. *)
Definition getitem (accounts_map : gset Z) (account_id : Z) : M Account.t :=
  row <- read (λ db, accounts db !! account_id) ;;
  match row with
  | Some account =>
      if decide (account_id ∈ accounts_map) then ret account
      else raise (KeyError account_id)
  | None => raise (KeyError account_id)
  end.

(** [account.balance = new_balance], on the session's object. *)
Definition set_balance (account_id : Z) (new_balance : Z) : M unit :=
  emit (SetBalance account_id new_balance) ;;
  write (λ db, with_accounts
                 (alter (λ a, Account.set_balance a new_balance) account_id (accounts db))
                 db).

(** [self.db.add(posting)] *)
Definition add (posting : Posting.t) : M unit :=
  emit (AddPosting posting) ;;
  write (λ db, with_postings (postings db ++ [posting]) db).

End Query.

(** ** app/services/ledger.py *)

Module LedgerService.
Import Database.

(** The names the non-negative rule does not apply to (line 113). *)
Definition exempt : list string := ["Equity"; "Treasury"]%string.

Definition get_balance (account_id : Z) : M Z :=
  account <- Query.account_by_id account_id ;;
  match account with
  | None => raise (AccountNotFoundError account_id)
  | Some account => ret (Account.balance account)
  end.

(** Step 5, the loop [for account_id, amount in entries] (lines 102-123). *)
Fixpoint post_entries (accounts_map : gset Z) (transaction : Transaction.t)
    (entries : list (Z * Z)) : M unit :=
  match entries with
  | [] => ret tt
  | (account_id, amount) :: entries =>
      account <- Query.getitem accounts_map account_id ;;
      let new_balance := Account.balance account + amount in
      if bool_decide (new_balance < 0)
         && bool_decide (Account.name account ∉ exempt)
      then raise (InsufficientFundsError account_id)
      else
        Query.set_balance account_id new_balance ;;
        Query.add {| Posting.transaction_id := Transaction.id transaction;
                     Posting.account_id := account_id;
                     Posting.amount := amount |} ;;
        post_entries accounts_map transaction entries
  end.

(** [sorted(list(set(acc_id for acc_id, _ in entries)))] (line 78). *)
Definition unique_account_ids (entries : list (Z * Z)) : list Z :=
  builtins.sorted (builtins.list (builtins.set (entries.*1))).

Definition process_transaction (reference_id : string)
    (transaction_type : TransactionType) (description : string)
    (entries : list (Z * Z)) : M Transaction.t :=
  (* 1. Validate Double Entry Rule *)
  let total_amount := builtins.sum (entries.*2) in
  if bool_decide (total_amount ≠ 0) then raise (ValueError total_amount) else
  (* 2. Idempotency Check *)
  existing_tx <- Query.transaction_by_reference reference_id ;;
  if bool_decide (is_Some existing_tx) then raise (IdempotencyError reference_id) else
  (* 3. Locking & Account Validation *)
  let unique_account_ids := unique_account_ids entries in
  accounts <- Query.accounts_for_update unique_account_ids ;;
  if bool_decide (length accounts ≠ length unique_account_ids) then
    let found_ids := builtins.set accounts in
    let missing_ids := builtins.set unique_account_ids ∖ found_ids in
    match builtins.list missing_ids with
    | account_id :: _ => raise (AccountNotFoundError account_id)
    | [] => raise IndexError
    end
  else
  let accounts_map := builtins.set accounts in
  (* 4. Create Transaction Record *)
  transaction <- Query.add_and_flush reference_id transaction_type description ;;
  (* 5. Create Postings and Update Balances *)
  post_entries accounts_map transaction entries ;;
  ret transaction.

End LedgerService.

(** ** app/schemas.py *)

Module TransactionRequest.
(** [TopUpRequest], [BonusRequest] and [PurchaseRequest] have the same
    fields; [amount] is declared [gt=0]. *)
Record t := Build {
  reference_id : string;
  amount : Z;
  description : option string;
  user_id : Z
}.

Definition valid (request : t) : Prop := 0 < amount request.

(** [request.description or default] *)
Definition description_or (request : t) (default : string) : string :=
  match description request with
  | Some d => if decide (d = ""%string) then default else d
  | None => default
  end.
End TransactionRequest.

(** ** app/routers/wallet.py *)

Module Wallet.
Import Database.

(** The ids of the rows of [accounts] that satisfy [P], by ascending id. *)
Definition matching (P : Account.t → bool) (db : Store) : list Z :=
  builtins.sorted ((filter (λ row, P row.2) (map_to_list (accounts db))).*1).

(** [select(Account).where(...)], then [scalars().all()]: the ids of the
    rows that satisfy [P], in the order in which the store returns them.
    The statements below have no [ORDER BY]. *)
Definition ids_where {order : RowOrder} (P : Account.t → bool) (db : Store)
  : list Z :=
  returned db (matching P db).

Definition get_system_account {order : RowOrder} (name : string) : M Z :=
  emit (SelectAccountByName name) ;;
  rows <- read (ids_where (λ a, bool_decide (Account.name a = name))) ;;
  match rows with
  | [] => raise (HTTPException 500
                   ("System account '" +:+ name +:+ "' not found"))
  | [account] => ret account
  | _ => raise MultipleResultsFound
  end.

Definition get_user_main_account {order : RowOrder} (user_id : Z) : M Z :=
  emit (SelectAccountsByUser user_id) ;;
  accounts <- read (ids_where (λ a, bool_decide (Account.user_id a = Some user_id))) ;;
  match accounts with
  | [] => raise (HTTPException 404 "User wallet not found")
  | account :: _ => ret account
  end.

(** What each endpoint does with its entries inside its [try] (lines
    51-58, 79-86, 107-114): [process_transaction], [db.commit()],
    [return tx]. *)
Definition process (reference_id : string) (transaction_type : TransactionType)
    (description : string) (entries : list (Z * Z)) : M Transaction.t :=
  tx <- LedgerService.process_transaction
          reference_id transaction_type description entries ;;
  commit ;;
  ret tx.

Definition bad_request (e : Exception) : Exception :=
  HTTPException 400 (str e).

Definition top_up {order : RowOrder} (request : TransactionRequest.t) : M Transaction.t :=
  treasury <- get_system_account "Treasury" ;;
  user_wallet <- get_user_main_account (TransactionRequest.user_id request) ;;
  let entries := [(treasury, - TransactionRequest.amount request);
                  (user_wallet, TransactionRequest.amount request)] in
  except_WalletException
    (process (TransactionRequest.reference_id request) TOPUP
       (TransactionRequest.description_or request "Wallet Top-up") entries)
    bad_request.

Definition bonus {order : RowOrder} (request : TransactionRequest.t) : M Transaction.t :=
  treasury <- get_system_account "Treasury" ;;
  user_wallet <- get_user_main_account (TransactionRequest.user_id request) ;;
  let entries := [(treasury, - TransactionRequest.amount request);
                  (user_wallet, TransactionRequest.amount request)] in
  except_WalletException
    (process (TransactionRequest.reference_id request) BONUS
       (TransactionRequest.description_or request "Bonus Credit") entries)
    bad_request.

Definition spend {order : RowOrder} (request : TransactionRequest.t) : M Transaction.t :=
  treasury <- get_system_account "Treasury" ;;
  user_wallet <- get_user_main_account (TransactionRequest.user_id request) ;;
  let entries := [(user_wallet, - TransactionRequest.amount request);
                  (treasury, TransactionRequest.amount request)] in
  except_WalletException
    (process (TransactionRequest.reference_id request) PURCHASE
       (TransactionRequest.description_or request "Purchase Item") entries)
    bad_request.

End Wallet.

(** ** seed.py *)

Module Seed.
Import Database.

(** [session.add_all([...])] and [flush()] on the empty [accounts] table:
    the rows are numbered from 1 in the order they are added. *)
Definition add_all (rows : list Account.t) : M unit :=
  write (λ db, with_accounts
                 (list_to_map (zip (seqZ 1 (Z.of_nat (length rows))) rows))
                 db).

(** [account.balance += amount] *)
Definition iadd_balance (account_id : Z) (amount : Z) : M unit :=
  row <- read (λ db, accounts db !! account_id) ;;
  match row with
  | Some account => Query.set_balance account_id (Account.balance account + amount)
  | None => raise (KeyError account_id)
  end.

Definition new_account (user_id : Z) (name : string) : Account.t :=
  {| Account.user_id := Some user_id; Account.name := name;
     Account.currency := "GOLD"; Account.balance := 0; Account.version := 0 |}.

Definition posting (tx : Transaction.t) (account_id amount : Z) : Posting.t :=
  {| Posting.transaction_id := Transaction.id tx;
     Posting.account_id := account_id; Posting.amount := amount |}.

(** What [seed] does on a store that is not seeded yet (its guard reads the
    [users] table).  The users are numbered 1 (system), 2 (alice), 3 (bob);
    the accounts 1 (Equity), 2 (Treasury), 3 (Alice's Wallet), 4 (Bob's
    Wallet). *)
Definition seed : M unit :=
  let equity_account := 1 in
  let treasury_account := 2 in
  let alice_wallet := 3 in
  let bob_wallet := 4 in
  add_all [new_account 1 "Equity"; new_account 1 "Treasury";
           new_account 2 "Alice's Wallet"; new_account 3 "Bob's Wallet"] ;;
  genesis_tx <- Query.add_and_flush "genesis_001" TOPUP "Initial Capital Injection" ;;
  Query.add (posting genesis_tx treasury_account 1000000000) ;;
  Query.add (posting genesis_tx equity_account (-1000000000)) ;;
  iadd_balance treasury_account 1000000000 ;;
  iadd_balance equity_account (-1000000000) ;;
  tx_alice <- Query.add_and_flush "seed_alice_001" BONUS "Welcome Bonus for Alice" ;;
  Query.add (posting tx_alice treasury_account (-100)) ;;
  Query.add (posting tx_alice alice_wallet 100) ;;
  iadd_balance treasury_account (-100) ;;
  iadd_balance alice_wallet 100 ;;
  tx_bob <- Query.add_and_flush "seed_bob_001" BONUS "Welcome Bonus for Bob" ;;
  Query.add (posting tx_bob treasury_account (-50)) ;;
  Query.add (posting tx_bob bob_wallet 50) ;;
  iadd_balance treasury_account (-50) ;;
  iadd_balance bob_wallet 50 ;;
  commit.

(** The store before anything was added: empty tables, sequence at 1. *)
Definition empty : Store :=
  {| accounts := ∅; transactions := ∅; postings := [];
     transactions_id_seq := 1 |}.

(** The store as [seed] leaves it. *)
Definition seeded : Store := (get_db seed empty).2.

End Seed.

(** ** The ledger as the properties speak of it *)

Module Ledger.
Import Database.

(** One call of the posting engine, as an endpoint makes it. *)
Record Call := Build_Call {
  reference_id : string;
  transaction_type : TransactionType;
  description : string;
  entries : list (Z * Z)
}.

(** One request: the call in a session of its own. *)
Definition request (c : Call) (db : Store) : Outcome Transaction.t * Store :=
  get_db (Wallet.process (reference_id c) (transaction_type c)
            (description c) (entries c)) db.

(** A sequence of requests, one after the other. *)
Definition requests (cs : list Call) (db : Store) : Store :=
  foldl (λ db c, (request c db).2) db cs.

(** The sum of the amounts the entries put on one account. *)
Definition net (entries : list (Z * Z)) (account_id : Z) : Z :=
  builtins.sum ((filter (λ e, e.1 = account_id) entries).*2).

Definition total (ps : list Posting.t) : Z :=
  builtins.sum (Posting.amount <$> ps).

Definition postings_of_transaction (db : Store) (id : Z) : list Posting.t :=
  filter (λ p, Posting.transaction_id p = id) (postings db).

Definition postings_of_account (db : Store) (id : Z) : list Posting.t :=
  filter (λ p, Posting.account_id p = id) (postings db).

Definition balance_of (db : Store) (account_id : Z) : option Z :=
  Account.balance <$> accounts db !! account_id.

(** The rows of the three tables are the same. *)
Definition same_rows (db db' : Store) : Prop :=
  accounts db' = accounts db ∧ transactions db' = transactions db
  ∧ postings db' = postings db.

(** Every balance is the sum of the postings on its account. *)
Definition derived (db : Store) : Prop :=
  map_Forall (λ id a, Account.balance a = total (postings_of_account db id))
    (accounts db).

#[global] Instance derived_dec (db : Store) : Decision (derived db).
Proof. apply map_Forall_dec. intros id a. apply Z.eq_dec. Defined.

(** The sequence is ahead of every transaction a posting belongs to. *)
Definition fresh_ids (db : Store) : Prop :=
  Forall (λ p, Posting.transaction_id p < transactions_id_seq db) (postings db).

#[global] Instance fresh_ids_dec (db : Store) : Decision (fresh_ids db).
Proof. apply Forall_dec. intros p. apply Z_lt_dec. Defined.

(** The postings of every transaction sum to zero. *)
Definition zero_sum (db : Store) : Prop :=
  ∀ id, total (postings_of_transaction db id) = 0.

Definition non_exempt (a : Account.t) : Prop :=
  Account.name a ∉ LedgerService.exempt.

(** The call passes steps 1 to 3: balanced entries, a new reference, and
    every account there. *)
Definition well_formed (db : Store) (reference_id : string)
    (entries : list (Z * Z)) : Prop :=
  builtins.sum (entries.*2) = 0
  ∧ transactions db !! reference_id = None
  ∧ Forall (λ id, is_Some (accounts db !! id)) (entries.*1).

#[global] Instance well_formed_dec db reference_id entries :
  Decision (well_formed db reference_id entries).
Proof. unfold well_formed. apply _. Defined.

(** The rule on the net effect: what every account would hold once all
    the entries are in is not negative, the exempt accounts apart. *)
Definition net_admissible (db : Store) (entries : list (Z * Z)) : Prop :=
  ∀ id a, id ∈ entries.*1 → accounts db !! id = Some a → non_exempt a →
    0 ≤ Account.balance a + net entries id.

(** The rule entry by entry: what the account of each entry holds once
    the entries up to and including it are in is not negative, the exempt
    accounts apart. *)
Definition running_admissible (db : Store) (entries : list (Z * Z)) : Prop :=
  ∀ before id amount after a,
    entries = before ++ (id, amount) :: after →
    accounts db !! id = Some a → non_exempt a →
    0 ≤ Account.balance a + net before id + amount.

(** [db'] is [db] with the entries [es] added to the balances, and no
    other change to the accounts. *)
Definition moved (es : list (Z * Z)) (db db' : Store) : Prop :=
  ∀ id, accounts db' !! id
        = (λ a, Account.set_balance a (Account.balance a + net es id))
            <$> accounts db !! id.

(** The posting of an entry. *)
Definition posting_of (transaction : Transaction.t) (e : Z * Z) : Posting.t :=
  {| Posting.transaction_id := Transaction.id transaction;
     Posting.account_id := e.1; Posting.amount := e.2 |}.

(** The session after the events [evs]. *)
Definition traced (evs : list Event) (s : Session) : Session :=
  {| durable := durable s; view := view s; trace := trace s ++ evs |}.

(** The session once one entry has passed the rule and is in (lines
    116-123). *)
Definition posted (transaction : Transaction.t) (account_id amount : Z)
    (account : Account.t) (s : Session) : Session :=
  ((Query.set_balance account_id (Account.balance account + amount) ;;
    Query.add {| Posting.transaction_id := Transaction.id transaction;
                 Posting.account_id := account_id;
                 Posting.amount := amount |}) s).2.

(** The row step 4 adds, and the session once it is flushed. *)
Definition new_transaction (reference_id : string) (type : TransactionType)
    (description : string) (s : Session) : Transaction.t :=
  {| Transaction.id := transactions_id_seq (view s);
     Transaction.reference_id := reference_id;
     Transaction.type := type; Transaction.description := description |}.

Definition flushed (transaction : Transaction.t) (s : Session) : Session :=
  {| durable := durable s;
     view := {| accounts := accounts (view s);
                transactions := <[Transaction.reference_id transaction := transaction]>
                                  (transactions (view s));
                postings := postings (view s);
                transactions_id_seq := transactions_id_seq (view s) + 1 |};
     trace := trace s ++ [FlushTransaction transaction] |}.

(** The rule of line 113. *)
Definition refused (account : Account.t) (amount : Z) : bool :=
  bool_decide (Account.balance account + amount < 0)
  && bool_decide (Account.name account ∉ LedgerService.exempt).

(** An event that changes a row. *)
Definition mutation (e : Event) : Prop :=
  match e with
  | FlushTransaction _ | SetBalance _ _ | AddPosting _ | Commit => True
  | _ => False
  end.

Definition lock (e : Event) : Prop :=
  match e with
  | SelectAccountsForUpdate _ => True
  | _ => False
  end.

(** An event that changes a row, and of the accounts only rows among
    [rows]. *)
Definition changes_within (rows : list Z) (e : Event) : Prop :=
  match e with
  | FlushTransaction _ => True
  | SetBalance account_id _ => account_id ∈ rows
  | AddPosting p => Posting.account_id p ∈ rows
  | _ => False
  end.

(** Every way a call of [process_transaction] can end. *)
Inductive ending (reference_id : string) (type : TransactionType)
    (description : string) (entries : list (Z * Z)) (s : Session)
  : Outcome Transaction.t → Session → Prop :=
| ends_unbalanced :
    builtins.sum (entries.*2) ≠ 0 →
    ending reference_id type description entries s
      (Raise (ValueError (builtins.sum (entries.*2)))) s
| ends_duplicate :
    builtins.sum (entries.*2) = 0 →
    is_Some (transactions (view s) !! reference_id) →
    ending reference_id type description entries s
      (Raise (IdempotencyError reference_id))
      (traced [SelectTransaction reference_id] s)
| ends_missing id :
    builtins.sum (entries.*2) = 0 →
    transactions (view s) !! reference_id = None →
    id ∈ entries.*1 → accounts (view s) !! id = None →
    ending reference_id type description entries s
      (Raise (AccountNotFoundError id))
      (traced [SelectAccountsForUpdate (LedgerService.unique_account_ids entries)]
         (traced [SelectTransaction reference_id] s))
| ends_refused before id amount after a s' evs :
    well_formed (view s) reference_id entries →
    entries = before ++ (id, amount) :: after →
    accounts (view s) !! id = Some a → non_exempt a →
    Account.balance a + net before id + amount < 0 →
    durable s' = durable s →
    transactions (view s')
    = <[reference_id := new_transaction reference_id type description s]>
        (transactions (view s)) →
    transactions_id_seq (view s') = transactions_id_seq (view s) + 1 →
    moved before (view s) (view s') →
    postings (view s')
    = postings (view s)
      ++ (posting_of (new_transaction reference_id type description s) <$> before) →
    trace s'
    = trace s
      ++ SelectTransaction reference_id
         :: SelectAccountsForUpdate (LedgerService.unique_account_ids entries)
         :: FlushTransaction (new_transaction reference_id type description s)
         :: evs →
    Forall (λ e, ¬ lock e) evs →
    ending reference_id type description entries s
      (Raise (InsufficientFundsError id)) s'
| ends_accepted s' evs :
    well_formed (view s) reference_id entries →
    running_admissible (view s) entries →
    durable s' = durable s →
    transactions (view s')
    = <[reference_id := new_transaction reference_id type description s]>
        (transactions (view s)) →
    transactions_id_seq (view s') = transactions_id_seq (view s) + 1 →
    moved entries (view s) (view s') →
    postings (view s')
    = postings (view s)
      ++ (posting_of (new_transaction reference_id type description s) <$> entries) →
    trace s'
    = trace s
      ++ SelectTransaction reference_id
         :: SelectAccountsForUpdate (LedgerService.unique_account_ids entries)
         :: FlushTransaction (new_transaction reference_id type description s)
         :: evs →
    Forall (λ e, ¬ lock e) evs →
    ending reference_id type description entries s
      (Return (new_transaction reference_id type description s)) s'.

(** Every way a request can end. *)
Inductive answered (c : Call) (db : Store) : Outcome Transaction.t → Store → Prop :=
| answered_unbalanced :
    builtins.sum ((entries c).*2) ≠ 0 →
    answered c db (Raise (ValueError (builtins.sum ((entries c).*2)))) db
| answered_duplicate :
    builtins.sum ((entries c).*2) = 0 →
    is_Some (transactions db !! reference_id c) →
    answered c db (Raise (IdempotencyError (reference_id c))) db
| answered_missing id :
    builtins.sum ((entries c).*2) = 0 →
    transactions db !! reference_id c = None →
    id ∈ (entries c).*1 → accounts db !! id = None →
    answered c db (Raise (AccountNotFoundError id)) db
| answered_refused before id amount after a db' :
    well_formed db (reference_id c) (entries c) →
    entries c = before ++ (id, amount) :: after →
    accounts db !! id = Some a → non_exempt a →
    Account.balance a + net before id + amount < 0 →
    same_rows db db' →
    transactions_id_seq db' = transactions_id_seq db + 1 →
    answered c db (Raise (InsufficientFundsError id)) db'
| answered_accepted tx db' :
    well_formed db (reference_id c) (entries c) →
    running_admissible db (entries c) →
    tx = {| Transaction.id := transactions_id_seq db;
            Transaction.reference_id := reference_id c;
            Transaction.type := transaction_type c;
            Transaction.description := description c |} →
    moved (entries c) db db' →
    transactions db' = <[reference_id c := tx]> (transactions db) →
    postings db' = postings db ++ (posting_of tx <$> entries c) →
    transactions_id_seq db' = transactions_id_seq db + 1 →
    answered c db (Return tx) db'.

End Ledger.

(** ** Two calls at once: the row locks

    The row locks are the store's.  [SELECT ... ORDER BY id FOR UPDATE]
    takes the lock of each row it returns, in the order it returns them, and
    waits while another session holds the one it needs next; the statement
    after it runs once it has returned.  A change that a session makes
    reaches the store no earlier than the session makes it, and no later
    than its commit.  A session gives its locks back when it ends, by its
    commit or by the rollback of [close].  The two calls carry different
    references, so that the unique index on [reference_id] makes neither
    wait for the other. *)

Module Locks.
Import Database.

(** The rows a call locks, in the order it locks them (lines 78-83). *)
Definition lock_order (db : Store) (entries : list (Z * Z)) : list Z :=
  Query.rows_for_update (LedgerService.unique_account_ids entries) db.

(** The statements a call sends to the store, in the order it sends them:
    the events [process_transaction] adds to the trace of a session of its
    own. *)
Definition statements (db : Store) (c : Ledger.Call) : list Event :=
  trace (LedgerService.process_transaction
           (Ledger.reference_id c) (Ledger.transaction_type c)
           (Ledger.description c) (Ledger.entries c) (open db)).2.

(** The rows the store locks for a statement, in the order it locks them.
    No call adds or removes an account, so that they are the same rows
    whenever the statement runs. *)
Definition rows_locked (db : Store) (e : Event) : list Z :=
  match e with
  | SelectAccountsForUpdate ids => Query.rows_for_update ids db
  | _ => []
  end.

(** The statements of a call, each with the rows the store locks for it. *)
Definition plan (db : Store) (c : Ledger.Call) : list (Event * list Z) :=
  (λ e, (e, rows_locked db e)) <$> statements db c.

(** A call in flight: the locks it holds, those its current statement has
    yet to take, and the statements it has yet to send; or a call that has
    ended. *)
Inductive CallState :=
| Running (held todo : list Z) (rest : list (Event * list Z))
| Ended.

Definition held_by (c : CallState) : list Z :=
  match c with
  | Running held _ _ => held
  | Ended => []
  end.

(** One move of a call, the other session holding [others]: it takes the
    next lock its statement waits for, if that row is free; or, its
    statement having returned, it sends the next one; or, having sent them
    all, it ends. *)
Inductive call_step (others : list Z) : CallState → CallState → Prop :=
| acquire held x todo rest :
    x ∉ others →
    call_step others (Running held (x :: todo) rest) (Running (x :: held) todo rest)
| statement held e rows rest :
    call_step others (Running held [] ((e, rows) :: rest)) (Running held rows rest)
| finish held :
    call_step others (Running held [] []) Ended.

(** One move of either of two calls. *)
Inductive step : CallState * CallState → CallState * CallState → Prop :=
| step_first c1 c1' c2 :
    call_step (held_by c2) c1 c1' → step (c1, c2) (c1', c2)
| step_second c1 c2 c2' :
    call_step (held_by c1) c2 c2' → step (c1, c2) (c1, c2').

(** Two calls about to start, each on the store as it reads it: what a
    call reads may or may not hold what the other has committed. *)
Definition start (db1 db2 : Store) (c1 c2 : Ledger.Call) : CallState * CallState :=
  (Running [] [] (plan db1 c1), Running [] [] (plan db2 c2)).

(** The rows a call has yet to lock, now and in the statements to come. *)
Definition to_lock (todo : list Z) (rest : list (Event * list Z)) : list Z :=
  todo ++ concat (rest.*2).

(** The moves a call has left. *)
Definition moves_left (c : CallState) : nat :=
  match c with
  | Running _ todo rest => S (length (to_lock todo rest) + length rest)
  | Ended => 0%nat
  end.

(** A call holds ids below those it has yet to lock, which ascend. *)
Definition ascending (c : CallState) : Prop :=
  match c with
  | Running held todo rest =>
      StronglySorted Z.lt (to_lock todo rest)
      ∧ ∀ h t, h ∈ held → t ∈ to_lock todo rest → h < t
  | Ended => True
  end.

(** Every row whose balance a call has yet to set is one it holds, or one
    it locks before it gets there. *)
Definition covered (c : CallState) : Prop :=
  match c with
  | Running held todo rest =>
      ∀ pre id balance rows post,
        rest = pre ++ (SetBalance id balance, rows) :: post →
        id ∈ held ∨ id ∈ to_lock todo pre
  | Ended => True
  end.

Definition exclusive (s : CallState * CallState) : Prop :=
  ∀ x, x ∈ held_by s.1 → x ∉ held_by s.2.

End Locks.

(** ** The calls of the scenarios, on the seeded store

    Account 2 is the Treasury, account 3 Alice's wallet with a balance of
    100, account 4 Bob's wallet with a balance of 50. *)

Module Scenario.
Import Ledger.

Definition topup_r1 : Call :=
  {| reference_id := "r1"; transaction_type := TOPUP;
     description := "Wallet Top-up"; entries := [(2, -100); (3, 100)] |}.

Definition topup_r1_row : Transaction.t :=
  {| Transaction.id := 4; Transaction.reference_id := "r1";
     Transaction.type := TOPUP; Transaction.description := "Wallet Top-up" |}.

Definition unbalanced_genesis : Call :=
  {| reference_id := "genesis_001"; transaction_type := TOPUP;
     description := ""; entries := [(3, 10); (2, -5)] |}.

Definition unknown_account : Call :=
  {| reference_id := "r5"; transaction_type := TOPUP;
     description := "scenario 5"; entries := [(2, -100); (999, 100)] |}.

Definition spend_150 : Call :=
  {| reference_id := "r3"; transaction_type := PURCHASE;
     description := "Purchase Item"; entries := [(3, -150); (2, 150)] |}.

Definition out_and_back : Call :=
  {| reference_id := "r6"; transaction_type := PURCHASE;
     description := "out and back"; entries := [(3, -150); (3, 150)] |}.

(** Two calls on the accounts 2 and 3, named in opposite orders; and the
    state in which the first holds the locks of 2 and 3 and is about to set
    the balance of 3, while the second waits for the lock of 2. *)
Definition wallet_to_treasury : list (Z * Z) := [(3, -10); (2, 10)].
Definition treasury_to_wallet : list (Z * Z) := [(2, -5); (3, 5)].
Definition pay_in : Call :=
  {| reference_id := "r8"; transaction_type := PURCHASE;
     description := "Purchase Item"; entries := wallet_to_treasury |}.
Definition pay_out : Call :=
  {| reference_id := "r9"; transaction_type := BONUS;
     description := "Bonus Credit"; entries := treasury_to_wallet |}.
Definition second_waits : Locks.CallState * Locks.CallState :=
  (Locks.Running [3; 2] [] (drop 3 (Locks.plan Seed.seeded pay_in)),
   Locks.Running [] [2; 3] (drop 2 (Locks.plan Seed.seeded pay_out))).

(** The requests of scenarios 1 to 3, from Alice (user 2). *)
Definition top_up_100 : TransactionRequest.t :=
  {| TransactionRequest.reference_id := "r1"; TransactionRequest.amount := 100;
     TransactionRequest.description := None; TransactionRequest.user_id := 2 |}.

Definition spend_150_request : TransactionRequest.t :=
  {| TransactionRequest.reference_id := "r3"; TransactionRequest.amount := 150;
     TransactionRequest.description := None; TransactionRequest.user_id := 2 |}.

End Scenario.

(** ** app/routers/wallet.py: the balance endpoint, with its schemas *)

Module AccountSchema.
Record t := Build {
  id : Z;
  name : string;
  currency : string;
  balance : Z
}.

(** [from_attributes]: the fields of the schema, read off the row. *)
Definition of_row (row : Z * Account.t) : t :=
  {| id := row.1; name := Account.name row.2;
     currency := Account.currency row.2; balance := Account.balance row.2 |}.
End AccountSchema.

Module BalanceResponse.
Record t := Build {
  user_id : Z;
  total_balance : Z;
  accounts : list AccountSchema.t
}.
End BalanceResponse.

Module WalletBalance.
Import Database.

(** The rows of [accounts] that satisfy [P], with their ids, in the order
    of [Wallet.ids_where]. *)
Definition rows_where {order : RowOrder} (P : Account.t → bool) (db : Store) : list (Z * Account.t) :=
  omap (λ id, pair id <$> accounts db !! id) (Wallet.ids_where P db).

(** [GET /wallet/{user_id}/balance] (lines 118-130). *)
Definition get_balance {order : RowOrder} (user_id : Z) : M BalanceResponse.t :=
  emit (SelectAccountsByUser user_id) ;;
  accounts <- read (rows_where (λ a, bool_decide (Account.user_id a = Some user_id))) ;;
  let total := builtins.sum ((λ acc, Account.balance acc.2) <$> accounts) in
  ret {| BalanceResponse.user_id := user_id;
         BalanceResponse.total_balance := total;
         BalanceResponse.accounts := AccountSchema.of_row <$> accounts |}.

End WalletBalance.

(** ** The books as a whole, and the endpoints side by side *)

Module Books.
Import Database.

(** The sum of all the balances of the store. *)
Definition total_balance (db : Store) : Z :=
  builtins.sum (Account.balance <$> (map_to_list (accounts db)).*2).

(** Whether the postings of every transaction that has a posting sum to
    zero can be computed. *)
#[global] Instance zero_sum_check_dec (db : Store) :
  Decision (Forall (λ p, Ledger.total (Ledger.postings_of_transaction db
                                         (Posting.transaction_id p)) = 0)
              (postings db)).
Proof. apply Forall_dec. intros p. apply Z.eq_dec. Defined.

(** The shape the three endpoints share: the Treasury, the user's account,
    the two entries, and the call inside [try]. *)
Definition endpoint {order : RowOrder} (type : TransactionType) (default : string)
    (entries : Z → Z → Z → list (Z * Z)) (request : TransactionRequest.t)
  : M Transaction.t :=
  treasury <- Wallet.get_system_account "Treasury" ;;
  user_wallet <- Wallet.get_user_main_account (TransactionRequest.user_id request) ;;
  except_WalletException
    (Wallet.process (TransactionRequest.reference_id request) type
       (TransactionRequest.description_or request default)
       (entries treasury user_wallet (TransactionRequest.amount request)))
    Wallet.bad_request.

(** Treasury to wallet ([top_up], [bonus]) and wallet to Treasury
    ([spend]). *)
Definition credit (treasury user_wallet amount : Z) : list (Z * Z) :=
  [(treasury, - amount); (user_wallet, amount)].
Definition debit (treasury user_wallet amount : Z) : list (Z * Z) :=
  [(user_wallet, - amount); (treasury, amount)].

(** The call an endpoint makes. *)
Definition call_of (type : TransactionType) (default : string)
    (entries : list (Z * Z)) (request : TransactionRequest.t) : Ledger.Call :=
  {| Ledger.reference_id := TransactionRequest.reference_id request;
     Ledger.transaction_type := type;
     Ledger.description := TransactionRequest.description_or request default;
     Ledger.entries := entries |}.

(** What the [except] clause of an endpoint makes of the outcome of its
    call. *)
Definition translated (outcome : Outcome Transaction.t) : Outcome Transaction.t :=
  match outcome with
  | Return tx => Return tx
  | Raise e => if is_WalletException e then Raise (Wallet.bad_request e) else Raise e
  end.

(** The accounts with a given name, and those of a given user. *)
Definition named (name : string) (a : Account.t) : bool :=
  bool_decide (Account.name a = name).
Definition owned_by (user_id : Z) (a : Account.t) : bool :=
  bool_decide (Account.user_id a = Some user_id).

(** The total the balance endpoint shows for a user. *)
Definition shown_total {order : RowOrder} (user_id : Z) (db : Store) : Z :=
  builtins.sum ((λ acc : Z * Account.t, Account.balance acc.2)
                  <$> WalletBalance.rows_where (owned_by user_id) db).

End Books.

(** Calls and requests for the examples that follow. *)

Module MoreScenarios.
Import Ledger.

Definition late_refusal : list (Z * Z) := [(2, 100); (3, -150); (4, 50)].

Definition empty_call : Call :=
  {| reference_id := "r0"; transaction_type := REFUND;
     description := "nothing to post"; entries := [] |}.

Definition bonus_50 : TransactionRequest.t :=
  {| TransactionRequest.reference_id := "r2"; TransactionRequest.amount := 50;
     TransactionRequest.description := None; TransactionRequest.user_id := 2 |}.

Definition spend_30 : TransactionRequest.t :=
  {| TransactionRequest.reference_id := "r7"; TransactionRequest.amount := 30;
     TransactionRequest.description := None; TransactionRequest.user_id := 2 |}.

(** The seeded store with a second, empty account of Alice, numbered 5; and
    a store that returns account 5 ahead of the others. *)
Definition two_wallets : Database.Store :=
  Database.with_accounts
    (<[5 := Seed.new_account 2 "Alice's Savings"]> (Database.accounts Seed.seeded))
    Seed.seeded.

Definition savings_first : Database.RowOrder := Database.first_row 5.

End MoreScenarios.

(** * Properties *)

Import Database Ledger Scenario.

(** ** The built-ins *)

Lemma sum_app (xs ys : list Z) :
  builtins.sum (xs ++ ys) = builtins.sum xs + builtins.sum ys.
Proof. induction xs as [|x xs IH]; simpl; lia. Qed.

Lemma sorted_elem_of (x : Z) (xs : list Z) : x ∈ builtins.sorted xs ↔ x ∈ xs.
Proof. unfold builtins.sorted. by rewrite merge_sort_Permutation. Qed.

Lemma sorted_NoDup (xs : list Z) : NoDup xs → NoDup (builtins.sorted xs).
Proof. unfold builtins.sorted. by rewrite merge_sort_Permutation. Qed.

(** A list in ascending order without repetition is in strictly ascending
    order. *)
Lemma StronglySorted_le_lt (xs : list Z) :
  StronglySorted Z.le xs → NoDup xs → StronglySorted Z.lt xs.
Proof.
  induction 1 as [|x xs Hs IH Hx]; intros Hnd; [constructor|].
  apply NoDup_cons in Hnd as [Hnotin Hnd].
  constructor; [by apply IH|].
  apply Forall_forall. intros y Hy.
  rewrite Forall_forall in Hx. specialize (Hx y Hy).
  assert (x ≠ y) by (intros ->; done). lia.
Qed.

Lemma sorted_ascending (xs : list Z) :
  NoDup xs → StronglySorted Z.lt (builtins.sorted xs).
Proof.
  intros Hnd. apply StronglySorted_le_lt; [|by apply sorted_NoDup].
  unfold builtins.sorted. apply StronglySorted_merge_sort; apply _.
Qed.

(** ** The ids of a call, and the rows its lock statement returns *)

Lemma unique_account_ids_elem_of (entries : list (Z * Z)) (id : Z) :
  id ∈ LedgerService.unique_account_ids entries ↔ id ∈ entries.*1.
Proof.
  unfold LedgerService.unique_account_ids, builtins.list, builtins.set.
  rewrite sorted_elem_of, elem_of_elements. apply elem_of_list_to_set.
Qed.

Lemma unique_account_ids_NoDup (entries : list (Z * Z)) :
  NoDup (LedgerService.unique_account_ids entries).
Proof. apply sorted_NoDup, NoDup_elements. Qed.

Lemma unique_account_ids_ascending (entries : list (Z * Z)) :
  StronglySorted Z.lt (LedgerService.unique_account_ids entries).
Proof. apply sorted_ascending, NoDup_elements. Qed.

Lemma rows_for_update_elem_of (ids : list Z) (db : Store) (id : Z) :
  id ∈ Query.rows_for_update ids db ↔ id ∈ ids ∧ is_Some (accounts db !! id).
Proof.
  unfold Query.rows_for_update.
  rewrite sorted_elem_of, elem_of_elements, elem_of_filter, elem_of_dom.
  done.
Qed.

Lemma rows_for_update_NoDup (ids : list Z) (db : Store) :
  NoDup (Query.rows_for_update ids db).
Proof. apply sorted_NoDup, NoDup_elements. Qed.

Lemma rows_for_update_ascending (ids : list Z) (db : Store) :
  StronglySorted Z.lt (Query.rows_for_update ids db).
Proof. apply sorted_ascending, NoDup_elements. Qed.

(** The length test of line 85 passes exactly when no id is missing. *)
Lemma rows_for_update_length (ids : list Z) (db : Store) :
  NoDup ids →
  length (Query.rows_for_update ids db) = length ids
  ↔ ∀ id, id ∈ ids → is_Some (accounts db !! id).
Proof.
  intros Hnd.
  assert (Hsub : Query.rows_for_update ids db ⊆ ids).
  { intros i Hi. by apply rows_for_update_elem_of in Hi as [? _]. }
  split.
  - intros Hlen id Hid.
    assert (Hperm : Query.rows_for_update ids db ≡ₚ ids).
    { apply submseteq_length_Permutation; [|lia].
      apply NoDup_submseteq; [apply rows_for_update_NoDup|done]. }
    rewrite <- Hperm in Hid. by apply rows_for_update_elem_of in Hid as [_ ?].
  - intros Hall. apply Permutation_length, NoDup_Permutation;
      [apply rows_for_update_NoDup|done|].
    intros i. rewrite rows_for_update_elem_of.
    split; [by intros [? _]|]. intros Hi. split; [done|by apply Hall].
Qed.

(** ** The posting engine, step by step *)

Lemma post_entries_nil accounts_map tx s :
  LedgerService.post_entries accounts_map tx [] s = (Return tt, s).
Proof. reflexivity. Qed.

Lemma post_entries_cons accounts_map tx account_id amount entries s :
  LedgerService.post_entries accounts_map tx ((account_id, amount) :: entries) s =
  match accounts (view s) !! account_id with
  | Some account =>
      if decide (account_id ∈ accounts_map) then
        if refused account amount then (Raise (InsufficientFundsError account_id), s)
        else LedgerService.post_entries accounts_map tx entries
               (posted tx account_id amount account s)
      else (Raise (KeyError account_id), s)
  | None => (Raise (KeyError account_id), s)
  end.
Proof.
  cbn [LedgerService.post_entries]. unfold bind at 1, Query.getitem, bind at 1.
  unfold read at 1. destruct (accounts (view s) !! account_id) as [account|]; [|done].
  destruct (decide (account_id ∈ accounts_map)); [|done].
  unfold ret at 1, refused, posted.
  destruct (bool_decide (Account.balance account + amount < 0)
            && bool_decide (Account.name account ∉ LedgerService.exempt)); [done|].
  reflexivity.
Qed.

Lemma process_transaction_unfold reference_id type description entries s :
  LedgerService.process_transaction reference_id type description entries s =
  let total_amount := builtins.sum (entries.*2) in
  if decide (total_amount ≠ 0) then (Raise (ValueError total_amount), s) else
  let s1 := traced [SelectTransaction reference_id] s in
  if decide (is_Some (transactions (view s) !! reference_id))
  then (Raise (IdempotencyError reference_id), s1) else
  let ids := LedgerService.unique_account_ids entries in
  let s2 := traced [SelectAccountsForUpdate ids] s1 in
  let rows := Query.rows_for_update ids (view s) in
  if decide (length rows ≠ length ids) then
    (match elements (builtins.set ids ∖ builtins.set rows) with
     | account_id :: _ => Raise (AccountNotFoundError account_id)
     | [] => Raise IndexError
     end, s2)
  else
    let tx := new_transaction reference_id type description s in
    match LedgerService.post_entries (builtins.set rows) tx entries (flushed tx s2) with
    | (Return _, s') => (Return tx, s')
    | (Raise e, s') => (Raise e, s')
    end.
Proof.
  unfold LedgerService.process_transaction. cbv zeta.
  rewrite (bool_decide_decide (builtins.sum (entries.*2) ≠ 0)).
  destruct (decide (builtins.sum (entries.*2) ≠ 0)); [done|].
  unfold bind at 1, Query.transaction_by_reference, bind at 1, emit at 1, read at 1.
  cbn [view].
  rewrite (bool_decide_decide (is_Some (transactions (view s) !! reference_id))).
  destruct (decide (is_Some (transactions (view s) !! reference_id))) as [Hsome|Hnone]; [done|].
  unfold bind at 1, Query.accounts_for_update, bind at 1, emit at 1, read at 1.
  cbn [view].
  rewrite (bool_decide_decide
             (length (Query.rows_for_update (LedgerService.unique_account_ids entries) (view s))
              ≠ length (LedgerService.unique_account_ids entries))).
  destruct (decide _) as [Hlen|Hlen].
  { unfold builtins.list. by destruct (elements _). }
  unfold bind at 1, Query.add_and_flush, bind at 1, read at 1, bind at 1, read at 1.
  cbn [view].
  destruct (transactions (view s) !! reference_id) eqn:Hlookup.
  { exfalso. apply Hnone. eauto. }
  unfold bind at 1, emit at 1, bind at 1, write at 1, ret at 1.
  cbn [view durable trace]. unfold bind at 1.
  unfold flushed, new_transaction, traced. cbn [view durable trace Transaction.reference_id].
  destruct (LedgerService.post_entries _ _ _ _) as [[[]|e] s']; reflexivity.
Qed.

(** ** One entry *)

Lemma set_balance_same (a : Account.t) : Account.set_balance a (Account.balance a) = a.
Proof. by destruct a. Qed.

Lemma net_nil id : net [] id = 0.
Proof. reflexivity. Qed.

Lemma net_cons e es id :
  net (e :: es) id = (if decide (e.1 = id) then e.2 else 0) + net es id.
Proof.
  unfold net. rewrite filter_cons. cbn beta.
  destruct (decide (e.1 = id)); [rewrite fmap_cons; cbn [builtins.sum]|]; lia.
Qed.

Lemma net_app es1 es2 id : net (es1 ++ es2) id = net es1 id + net es2 id.
Proof.
  unfold net. by rewrite filter_app, fmap_app, sum_app.
Qed.

Lemma net_not_in es id : id ∉ es.*1 → net es id = 0.
Proof.
  induction es as [|e es IH]; [done|]. rewrite fmap_cons, not_elem_of_cons.
  intros [Hne Hnotin]. rewrite net_cons, IH by done.
  destruct (decide (e.1 = id)); [congruence|done].
Qed.

Lemma refused_false (account : Account.t) (amount : Z) :
  refused account amount = false ↔
  (non_exempt account → 0 ≤ Account.balance account + amount).
Proof.
  unfold refused, non_exempt. rewrite andb_false_iff, !bool_decide_eq_false.
  split.
  - intros [H|H] Hne; [lia|done].
  - intros H. destruct (decide (Account.name account ∉ LedgerService.exempt)) as [Hne|Hne];
      [left; specialize (H Hne); lia|by right].
Qed.

Lemma refused_true (account : Account.t) (amount : Z) :
  refused account amount = true ↔
  non_exempt account ∧ Account.balance account + amount < 0.
Proof.
  unfold refused, non_exempt. rewrite andb_true_iff, !bool_decide_eq_true. tauto.
Qed.

Section posted.
Context (tx : Transaction.t) (account_id amount : Z) (account : Account.t)
        (s : Session).

Lemma posted_accounts :
  accounts (view (posted tx account_id amount account s))
  = alter (λ a, Account.set_balance a (Account.balance account + amount))
      account_id (accounts (view s)).
Proof. reflexivity. Qed.

Lemma posted_postings :
  postings (view (posted tx account_id amount account s))
  = postings (view s) ++ [posting_of tx (account_id, amount)].
Proof. reflexivity. Qed.

Lemma posted_trace :
  trace (posted tx account_id amount account s)
  = trace s ++ [SetBalance account_id (Account.balance account + amount);
                AddPosting (posting_of tx (account_id, amount))].
Proof. unfold posted. cbn. by rewrite <- app_assoc. Qed.

Lemma posted_moved :
  accounts (view s) !! account_id = Some account →
  moved [(account_id, amount)] (view s) (view (posted tx account_id amount account s)).
Proof.
  intros Hacc id. rewrite posted_accounts, net_cons, net_nil. cbn [fst snd].
  destruct (decide (account_id = id)) as [->|Hne].
  - rewrite lookup_alter_eq, Hacc. cbn. by rewrite Z.add_0_r.
  - rewrite lookup_alter_ne by done.
    destruct (accounts (view s) !! id) as [a|]; [|done]. cbn.
    by rewrite Z.add_0_r, set_balance_same.
Qed.
End posted.

Lemma moved_nil db : moved [] db db.
Proof.
  intros id. rewrite net_nil.
  destruct (accounts db !! id) as [a|]; [|done]. cbn.
  by rewrite Z.add_0_r, set_balance_same.
Qed.

Lemma moved_app es1 es2 db db1 db2 :
  moved es1 db db1 → moved es2 db1 db2 → moved (es1 ++ es2) db db2.
Proof.
  intros H1 H2 id. rewrite H2, H1, net_app.
  destruct (accounts db !! id) as [a|]; [|done]. cbn. f_equal.
  unfold Account.set_balance. cbn. f_equal. lia.
Qed.

Lemma moved_lookup es db db' id a' :
  moved es db db' → accounts db' !! id = Some a' →
  ∃ a, accounts db !! id = Some a
       ∧ a' = Account.set_balance a (Account.balance a + net es id).
Proof.
  intros Hm. rewrite Hm. destruct (accounts db !! id) as [a|]; [|done].
  cbn. intros [= <-]. eauto.
Qed.

Lemma moved_is_Some es db db' id :
  moved es db db' → is_Some (accounts db' !! id) ↔ is_Some (accounts db !! id).
Proof. intros Hm. rewrite Hm. by rewrite fmap_is_Some. Qed.

(** The rule entry by entry, unfolded at the first entry. *)
Lemma running_admissible_cons db db1 id0 amount0 rest a0 :
  accounts db !! id0 = Some a0 →
  moved [(id0, amount0)] db db1 →
  running_admissible db ((id0, amount0) :: rest)
  ↔ (non_exempt a0 → 0 ≤ Account.balance a0 + amount0) ∧ running_admissible db1 rest.
Proof.
  intros Ha0 Hm. split.
  - intros Hrun. split.
    + intros Hne. specialize (Hrun [] id0 amount0 rest a0 eq_refl Ha0 Hne).
      rewrite net_nil in Hrun. lia.
    + intros before id amount after a1 -> Ha1 Hne.
      destruct (moved_lookup _ _ _ _ _ Hm Ha1) as (a & Ha & ->).
      specialize (Hrun ((id0, amount0) :: before) id amount after a eq_refl Ha Hne).
      rewrite net_cons in Hrun. rewrite net_cons, net_nil in *. cbn in *. lia.
  - intros [Hfirst Hrest] before id amount after a Hsplit Ha Hne.
    destruct before as [|e before]; simplify_eq/=.
    + rewrite net_nil. specialize (Hfirst Hne). lia.
    + assert (Ha1 : accounts db1 !! id
                    = Some (Account.set_balance a
                              (Account.balance a + net [(id0, amount0)] id)))
        by (by rewrite Hm, Ha).
      specialize (Hrest before id amount after _ eq_refl Ha1 Hne).
      rewrite net_cons. rewrite net_cons, net_nil in Hrest. cbn in *. lia.
Qed.

(** ** The loop of step 5 *)

(** What the loop does on accounts that are all there: either every entry
    is in, or it stopped at the first entry that the rule refuses, with the
    entries before it in. *)
Lemma post_entries_spec accounts_map tx entries : ∀ s,
  (∀ id, id ∈ entries.*1 → id ∈ accounts_map ∧ is_Some (accounts (view s) !! id)) →
  ∃ done_ s',
    LedgerService.post_entries accounts_map tx entries s = (done_, s')
    ∧ durable s' = durable s
    ∧ transactions (view s') = transactions (view s)
    ∧ transactions_id_seq (view s') = transactions_id_seq (view s)
    ∧ match done_ with
      | Return _ =>
          running_admissible (view s) entries
          ∧ moved entries (view s) (view s')
          ∧ postings (view s') = postings (view s) ++ (posting_of tx <$> entries)
      | Raise e =>
          ∃ before id amount after a,
            entries = before ++ (id, amount) :: after
            ∧ e = InsufficientFundsError id
            ∧ accounts (view s) !! id = Some a ∧ non_exempt a
            ∧ Account.balance a + net before id + amount < 0
            ∧ moved before (view s) (view s')
            ∧ postings (view s') = postings (view s) ++ (posting_of tx <$> before)
      end.
Proof.
  induction entries as [|[id0 amount0] rest IH]; intros s Hthere.
  - exists (Return tt), s. rewrite post_entries_nil.
    split; [done|]. split; [done|]. split; [done|]. split; [done|].
    split; [|split].
    + intros before id amount after a Hsplit. by destruct before.
    + apply moved_nil.
    + by rewrite fmap_nil, app_nil_r.
  - rewrite post_entries_cons.
    destruct (Hthere id0) as [Hin [a0 Ha0]]; [rewrite fmap_cons; left|].
    rewrite Ha0, decide_True by done.
    destruct (refused a0 amount0) eqn:Hrule.
    + exists (Raise (InsufficientFundsError id0)), s.
      split; [done|]. split; [done|]. split; [done|]. split; [done|].
      apply refused_true in Hrule as [Hne Hneg].
      exists [], id0, amount0, rest, a0. rewrite net_nil.
      split; [done|]. split; [done|]. split; [done|]. split; [done|].
      split; [lia|]. split; [apply moved_nil|by rewrite fmap_nil, app_nil_r].
    + set (s1 := posted tx id0 amount0 a0 s).
      assert (Hm : moved [(id0, amount0)] (view s) (view s1)) by by apply posted_moved.
      destruct (IH s1) as (done_ & s' & Hrun & Hdur & Htx & Hseq & Hres).
      { intros id Hid. destruct (Hthere id) as [? ?]; [rewrite fmap_cons; by right|].
        split; [done|]. by apply (moved_is_Some _ _ _ _ Hm). }
      exists done_, s'. split; [done|]. split; [done|]. split; [done|]. split; [done|].
      pose proof (proj1 (refused_false _ _) Hrule) as Hfirst.
      destruct done_ as [[]|e].
      * destruct Hres as (Hadm & Hmoved & Hposts). split; [|split].
        -- by apply (running_admissible_cons _ _ _ _ _ _ Ha0 Hm).
        -- by apply (moved_app [(id0, amount0)] rest _ _ _ Hm).
        -- rewrite Hposts. unfold s1. rewrite posted_postings, fmap_cons.
           by rewrite <- app_assoc.
      * destruct Hres as (before & id & amount & after & a1 & -> & -> & Ha1 & Hne
                          & Hneg & Hmoved & Hposts).
        destruct (moved_lookup _ _ _ _ _ Hm Ha1) as (a & Ha & ->).
        exists ((id0, amount0) :: before), id, amount, after, a.
        split; [done|]. split; [done|]. split; [done|]. split; [done|].
        split; [|split].
        -- rewrite net_cons. rewrite net_cons, net_nil in Hneg. cbn in *. lia.
        -- by apply (moved_app [(id0, amount0)] before _ _ _ Hm).
        -- rewrite Hposts. unfold s1. rewrite posted_postings, fmap_cons.
           by rewrite <- app_assoc.
Qed.

(** Without any assumption on the accounts: the loop leaves the committed
    store, the transactions and the sequence alone, adds only [SetBalance]
    and [AddPosting] events, and keeps every property of the view that one
    admitted entry keeps. *)
Lemma post_entries_frame accounts_map tx entries : ∀ s,
  let s' := (LedgerService.post_entries accounts_map tx entries s).2 in
  durable s' = durable s
  ∧ transactions (view s') = transactions (view s)
  ∧ transactions_id_seq (view s') = transactions_id_seq (view s)
  ∧ ∃ evs, trace s' = trace s ++ evs ∧ Forall (λ e, ¬ lock e) evs.
Proof.
  induction entries as [|[id0 amount0] rest IH]; intros s; cbv zeta.
  - rewrite post_entries_nil.
    split; [done|]. split; [done|]. split; [done|].
    exists []. by rewrite app_nil_r.
  - rewrite post_entries_cons.
    assert (Hstay : ∃ evs, trace s = trace s ++ evs ∧ Forall (λ e, ¬ lock e) evs)
      by (exists []; by rewrite app_nil_r).
    destruct (accounts (view s) !! id0) as [a0|]; [|done].
    destruct (decide (id0 ∈ accounts_map)) as [_|_]; [|done].
    destruct (refused a0 amount0); [done|].
    destruct (IH (posted tx id0 amount0 a0 s)) as (Hdur & Htx & Hseq & evs & Htr & Hevs).
    split; [done|]. split; [done|]. split; [done|].
    eexists. split.
    + rewrite Htr, posted_trace, <- app_assoc. reflexivity.
    + repeat constructor; [cbn; tauto..|done].
Qed.

(** ** The posting engine, case by case *)

(** When an id is missing, line 88 names one that is. *)
Lemma missing_id_found (ids : list Z) (db : Store) :
  NoDup ids →
  length (Query.rows_for_update ids db) ≠ length ids →
  ∃ id rest,
    elements (builtins.set ids ∖ builtins.set (Query.rows_for_update ids db)) = id :: rest
    ∧ id ∈ ids ∧ accounts db !! id = None.
Proof.
  intros Hnd Hlen.
  destruct (elements _) as [|id rest] eqn:Hel.
  - exfalso. apply Hlen, rows_for_update_length; [done|].
    intros id Hid. apply elements_empty_inv in Hel.
    destruct (accounts db !! id) eqn:Hlook; [eauto|exfalso].
    assert (id ∈ builtins.set ids ∖ builtins.set (Query.rows_for_update ids db)) as Hin.
    { unfold builtins.set. rewrite elem_of_difference, !elem_of_list_to_set.
      split; [done|]. rewrite rows_for_update_elem_of, Hlook.
      intros [_ [? ?]]; done. }
    apply (proj1 (elem_of_equiv_empty _) Hel id Hin).
  - exists id, rest. split; [done|].
    assert (id ∈ elements (builtins.set ids ∖ builtins.set (Query.rows_for_update ids db))) as Hin
      by (rewrite Hel; left).
    unfold builtins.set in Hin.
    rewrite elem_of_elements, elem_of_difference, !elem_of_list_to_set in Hin.
    destruct Hin as [Hid Hnot]. split; [done|].
    rewrite rows_for_update_elem_of in Hnot.
    destruct (accounts db !! id); [|done]. exfalso. apply Hnot. eauto.
Qed.

Lemma process_transaction_ending reference_id type description entries s :
  ∃ outcome s',
    LedgerService.process_transaction reference_id type description entries s
    = (outcome, s')
    ∧ ending reference_id type description entries s outcome s'.
Proof.
  rewrite process_transaction_unfold. cbv zeta.
  destruct (decide (builtins.sum (entries.*2) ≠ 0)) as [Hsum|Hsum].
  { eexists _, _. split; [done|]. by constructor. }
  apply dec_stable in Hsum.
  destruct (decide (is_Some (transactions (view s) !! reference_id))) as [Hdup|Hnew].
  { eexists _, _. split; [done|]. by constructor. }
  apply eq_None_not_Some in Hnew.
  pose proof (unique_account_ids_NoDup entries) as Hnd.
  destruct (decide (length _ ≠ length _)) as [Hlen|Hlen].
  { destruct (missing_id_found _ _ Hnd Hlen) as (id & rest & -> & Hid & Hnone).
    eexists _, _. split; [done|].
    apply ends_missing; [done..| |done]. by apply unique_account_ids_elem_of. }
  apply dec_stable in Hlen.
  pose proof (proj1 (rows_for_update_length _ _ Hnd) Hlen) as Hall.
  assert (Hwf : well_formed (view s) reference_id entries).
  { split; [done|]. split; [done|]. apply Forall_forall. intros id Hid.
    by apply Hall, unique_account_ids_elem_of. }
  set (tx := new_transaction reference_id type description s).
  set (s3 := flushed tx _).
  destruct (post_entries_spec
              (builtins.set (Query.rows_for_update
                               (LedgerService.unique_account_ids entries) (view s)))
              tx entries s3)
    as (done_ & s' & Hrun & Hdur & Htx & Hseq & Hres).
  { intros id Hid. split.
    - unfold builtins.set. rewrite elem_of_list_to_set, rows_for_update_elem_of.
      split; [by apply unique_account_ids_elem_of|].
      by apply Hall, unique_account_ids_elem_of.
    - by apply Hall, unique_account_ids_elem_of. }
  destruct (post_entries_frame
              (builtins.set (Query.rows_for_update
                               (LedgerService.unique_account_ids entries) (view s)))
              tx entries s3)
    as (_ & _ & _ & evs & Htrace & Hevs).
  rewrite Hrun in Htrace |- *. cbn [snd] in Htrace.
  assert (Htrace' : trace s'
                    = trace s
                      ++ SelectTransaction reference_id
                         :: SelectAccountsForUpdate (LedgerService.unique_account_ids entries)
                         :: FlushTransaction tx :: evs).
  { rewrite Htrace. unfold s3, flushed, traced. cbn [trace].
    by rewrite <- !app_assoc. }
  destruct done_ as [[]|e].
  - destruct Hres as (Hadm & Hmoved & Hposts).
    eexists _, _. split; [done|].
    by eapply ends_accepted.
  - destruct Hres as (before & id & amount & after & a & Hsplit & -> & Ha & Hne
                      & Hneg & Hmoved & Hposts).
    eexists _, _. split; [done|].
    by eapply ends_refused.
Qed.

(** ** One request *)

Lemma store_eta (db : Store) :
  {| accounts := accounts db; transactions := transactions db;
     postings := postings db; transactions_id_seq := transactions_id_seq db |} = db.
Proof. by destruct db. Qed.

Lemma request_unfold (c : Call) (db : Store) :
  request c db =
  match LedgerService.process_transaction (reference_id c) (transaction_type c)
          (description c) (entries c) (open db) with
  | (Return tx, s') => (Return tx, view s')
  | (Raise e, s') => (Raise e, close s')
  end.
Proof.
  unfold request, get_db, Wallet.process, bind.
  destruct (LedgerService.process_transaction _ _ _ _ _) as [[tx|e] s']; [|done].
  unfold commit, ret, close. cbn [durable view]. by rewrite store_eta.
Qed.

Lemma accounts_there (db : Store) (ids : list Z) :
  Forall (λ id, is_Some (accounts db !! id)) ids →
  ∀ id, id ∈ ids → is_Some (accounts db !! id).
Proof. apply Forall_forall. Qed.

Lemma request_answered (c : Call) (db : Store) :
  ∃ outcome db', request c db = (outcome, db') ∧ answered c db outcome db'.
Proof.
  rewrite request_unfold.
  destruct (process_transaction_ending (reference_id c) (transaction_type c)
              (description c) (entries c) (open db))
    as (outcome & s' & -> & Hend).
  destruct Hend as [Hsum | Hsum Hdup | id Hsum Hnew Hid Hnone
                   | before id amount after a s' evs Hwf Hsplit Ha Hne Hneg
                       Hdur Htx Hseq Hmoved Hposts Htrace Hevs
                   | s' evs Hwf Hadm Hdur Htx Hseq Hmoved Hposts Htrace Hevs];
    cbn [view durable open] in *.
  - eexists _, _. split; [done|]. unfold close, traced, open; cbn.
    rewrite store_eta. by constructor.
  - eexists _, _. split; [done|]. unfold close, traced, open; cbn.
    rewrite store_eta. by constructor.
  - eexists _, _. split; [done|]. unfold close, traced, open; cbn.
    rewrite store_eta. by eapply answered_missing.
  - eexists _, _. split; [done|].
    eapply answered_refused; try done.
    unfold close, same_rows. cbn. by rewrite Hdur.
  - eexists _, _. split; [done|].
    by eapply answered_accepted.
Qed.

(** The outcome and the store of a request are those of [answered]. *)
Lemma request_inv (c : Call) (db : Store) outcome db' :
  request c db = (outcome, db') → answered c db outcome db'.
Proof.
  intros Hreq. destruct (request_answered c db) as (o & d & Heq & Hans).
  rewrite Hreq in Heq. by simplify_eq.
Qed.

(** ** Examples on the seeded store *)

Example topup_r1_accepted :
  request topup_r1 Seed.seeded = (Return topup_r1_row, (request topup_r1 Seed.seeded).2).
Proof. vm_compute. reflexivity. Qed.

Example topup_r1_balances :
  let db := (request topup_r1 Seed.seeded).2 in
  balance_of Seed.seeded 2 = Some 999999850 ∧ balance_of Seed.seeded 3 = Some 100
  ∧ balance_of db 2 = Some 999999750 ∧ balance_of db 3 = Some 200.
Proof. vm_compute. done. Qed.

(** ** Step 1: the entries must balance *)

(** C8. Entries whose amounts do not sum to zero make [process_transaction]
    raise [ValueError] with the sum it found, in the session it was called
    in: nothing was looked up, no lock was asked for, nothing was changed,
    the trace of the session has no new event.  The request as a whole
    answers the same and leaves the store as it was. *)
Theorem unbalanced_entries_fail_first
    (reference_id : string) (type : TransactionType) (description : string)
    (entries : list (Z * Z)) (s : Session) (db : Store) :
  builtins.sum (entries.*2) ≠ 0 →
  LedgerService.process_transaction reference_id type description entries s
  = (Raise (ValueError (builtins.sum (entries.*2))), s)
  ∧ request (Build_Call reference_id type description entries) db
    = (Raise (ValueError (builtins.sum (entries.*2))), db).
Proof.
  intros Hsum. split.
  - rewrite process_transaction_unfold. cbv zeta. by rewrite decide_True.
  - destruct (request_answered (Build_Call reference_id type description entries) db)
      as (outcome & db' & -> & Hans).
    destruct Hans as [ | Hz | ? Hz | ? ? ? ? ? ? [Hz _] | ? ? [Hz _]]; try done.
Qed.

Lemma unbalanced_entries_fail_first_witness :
  LedgerService.process_transaction "r4" TOPUP "scenario 4" [(3, 10); (4, -5)]
    (open Seed.seeded)
  = (Raise (ValueError 5), open Seed.seeded)
  ∧ request (Build_Call "r4" TOPUP "scenario 4" [(3, 10); (4, -5)]) Seed.seeded
    = (Raise (ValueError 5), Seed.seeded).
Proof.
  apply (unbalanced_entries_fail_first
           "r4" TOPUP "scenario 4" [(3, 10); (4, -5)] (open Seed.seeded) Seed.seeded).
  vm_compute. discriminate.
Defined.

(** ** Step 2: the reference must be new *)

(** A reference that is taken is answered by the balance test or by
    [IdempotencyError], in that order, and nothing is changed. *)
Lemma taken_reference (c : Call) (db : Store) :
  is_Some (transactions db !! reference_id c) →
  request c db
  = (if decide (builtins.sum ((entries c).*2) = 0)
     then Raise (IdempotencyError (reference_id c))
     else Raise (ValueError (builtins.sum ((entries c).*2))), db).
Proof.
  intros Htaken.
  destruct (request_answered c db) as (outcome & db' & -> & Hans).
  destruct Hans as [Hnz | Hz _ | ? _ Hnew | ? ? ? ? ? ? (_ & Hnew & _) | ? ? (_ & Hnew & _)].
  - by rewrite decide_False.
  - by rewrite decide_True.
  - rewrite Hnew in Htaken. by destruct Htaken.
  - rewrite Hnew in Htaken. by destruct Htaken.
  - rewrite Hnew in Htaken. by destruct Htaken.
Qed.

(** C7, as stated, fails: the reference [genesis_001] names a transaction of
    the seeded store, the entries sum to 5, and the call raises
    [ValueError], not [IdempotencyError]. *)
Lemma duplicate_before_balance_counterexample :
  is_Some (transactions Seed.seeded !! reference_id unbalanced_genesis)
  ∧ (request unbalanced_genesis Seed.seeded).1 = Raise (ValueError 5)
  ∧ (request unbalanced_genesis Seed.seeded).1
    ≠ Raise (IdempotencyError (reference_id unbalanced_genesis)).
Proof.
  split; [|split].
  - vm_compute. eauto.
  - vm_compute. reflexivity.
  - vm_compute. discriminate.
Qed.

(** C7, amended. The balance test is step 1 and the idempotency check is
    step 2: a call whose reference names an existing transaction raises
    [IdempotencyError] with that reference when its entries sum to zero, and
    [ValueError] with the sum when they do not; in the second case the
    session has not even looked the reference up.  Either way the store is
    left as it was. *)
Theorem balance_test_before_duplicate_check (c : Call) (db : Store) (s : Session) :
  is_Some (transactions db !! reference_id c) →
  request c db
  = (if decide (builtins.sum ((entries c).*2) = 0)
     then Raise (IdempotencyError (reference_id c))
     else Raise (ValueError (builtins.sum ((entries c).*2))), db)
  ∧ (builtins.sum ((entries c).*2) ≠ 0 →
     LedgerService.process_transaction (reference_id c) (transaction_type c)
       (description c) (entries c) s
     = (Raise (ValueError (builtins.sum ((entries c).*2))), s))
  ∧ (builtins.sum ((entries c).*2) = 0 →
     is_Some (transactions (view s) !! reference_id c) →
     LedgerService.process_transaction (reference_id c) (transaction_type c)
       (description c) (entries c) s
     = (Raise (IdempotencyError (reference_id c)),
        traced [SelectTransaction (reference_id c)] s)).
Proof.
  intros Htaken. split; [by apply taken_reference|]. split.
  - intros Hsum. rewrite process_transaction_unfold. cbv zeta. by rewrite decide_True.
  - intros Hsum Hs. rewrite process_transaction_unfold. cbv zeta.
    rewrite decide_False by (by intros ?). by rewrite decide_True.
Qed.

Lemma balance_test_before_duplicate_check_witness :
  request unbalanced_genesis Seed.seeded = (Raise (ValueError 5), Seed.seeded).
Proof.
  refine (proj1 (balance_test_before_duplicate_check
                   unbalanced_genesis Seed.seeded (open Seed.seeded) _)).
  vm_compute. eauto.
Defined.

(** C1. A call that was accepted has put the net amount of its entries on
    every account, once.  From then on, in the store it left and in every
    store in which a transaction with its reference exists, the same
    reference with the same entries raises [IdempotencyError] and the store
    stays as it is: the balances after the second call are those after the
    first. *)
Theorem second_call_is_rejected (c c' : Call) (db0 db1 : Store) (tx : Transaction.t) :
  request c db0 = (Return tx, db1) →
  reference_id c' = reference_id c → entries c' = entries c →
  (∀ id, balance_of db1 id = (λ b, b + net (entries c) id) <$> balance_of db0 id)
  ∧ request c' db1 = (Raise (IdempotencyError (reference_id c)), db1)
  ∧ (∀ id, balance_of (request c' db1).2 id = balance_of db1 id)
  ∧ ∀ db, is_Some (transactions db !! reference_id c) →
          request c' db = (Raise (IdempotencyError (reference_id c)), db).
Proof.
  intros Hreq Href Hentries.
  apply request_inv in Hreq.
  inversion Hreq as [ | | | | tx' db' (Hsum & Hnew & Hall) Hadm Htx Hmoved Htxs Hposts Hseq];
    subst tx' db'.
  assert (Hrepeat : ∀ db, is_Some (transactions db !! reference_id c) →
            request c' db = (Raise (IdempotencyError (reference_id c)), db)).
  { intros db Htaken. rewrite taken_reference by (by rewrite Href).
    rewrite Hentries, Href. by rewrite decide_True. }
  assert (Htaken : is_Some (transactions db1 !! reference_id c))
    by (rewrite Htxs, lookup_insert_eq; eauto).
  split; [|split; [|split]].
  - intros id. unfold balance_of. rewrite Hmoved.
    by destruct (accounts db0 !! id).
  - by apply Hrepeat.
  - intros id. by rewrite Hrepeat.
  - done.
Qed.

Lemma second_call_is_rejected_witness :
  request topup_r1 (request topup_r1 Seed.seeded).2
  = (Raise (IdempotencyError "r1"), (request topup_r1 Seed.seeded).2)
  ∧ balance_of (request topup_r1 (request topup_r1 Seed.seeded).2).2 2 = Some 999999750
  ∧ balance_of (request topup_r1 (request topup_r1 Seed.seeded).2).2 3 = Some 200.
Proof.
  destruct (second_call_is_rejected topup_r1 topup_r1 Seed.seeded
              (request topup_r1 Seed.seeded).2 topup_r1_row)
    as (_ & Hsecond & Hsame & _).
  - vm_compute. reflexivity.
  - reflexivity.
  - reflexivity.
  - split; [exact Hsecond|]. rewrite !Hsame. vm_compute. split; reflexivity.
Defined.

(** ** The postings of a transaction and of an account *)

Lemma total_app (ps qs : list Posting.t) : total (ps ++ qs) = total ps + total qs.
Proof. unfold total. by rewrite fmap_app, sum_app. Qed.

Lemma total_posting_of tx (entries : list (Z * Z)) :
  total (posting_of tx <$> entries) = builtins.sum (entries.*2).
Proof.
  unfold total. induction entries as [|e es IH]; [done|].
  rewrite !fmap_cons. cbn [builtins.sum]. rewrite IH. done.
Qed.

Lemma postings_of_new_transaction tx (entries : list (Z * Z)) :
  filter (λ p, Posting.transaction_id p = Transaction.id tx) (posting_of tx <$> entries)
  = posting_of tx <$> entries.
Proof.
  induction entries as [|e es IH]; [done|].
  rewrite fmap_cons, filter_cons_True by done. by rewrite IH.
Qed.

Lemma postings_of_old_transactions (ps : list Posting.t) (seq : Z) :
  Forall (λ p, Posting.transaction_id p < seq) ps →
  filter (λ p, Posting.transaction_id p = seq) ps = [].
Proof.
  induction 1 as [|p ps Hp _ IH]; [done|].
  rewrite filter_cons_False by lia. done.
Qed.

Lemma total_on_account tx (entries : list (Z * Z)) (id : Z) :
  total (filter (λ p, Posting.account_id p = id) (posting_of tx <$> entries))
  = net entries id.
Proof.
  induction entries as [|e es IH]; [done|].
  rewrite fmap_cons, filter_cons, net_cons. cbn [posting_of Posting.account_id].
  destruct (decide (e.1 = id)).
  - change (posting_of tx e :: ?l) with ([posting_of tx e] ++ l).
    rewrite total_app, IH. unfold total. cbn. lia.
  - rewrite IH. lia.
Qed.

(** ** The two invariants of the store *)

Lemma accepted_fresh_ids (c : Call) (db db' : Store) outcome :
  request c db = (outcome, db') → fresh_ids db → fresh_ids db'.
Proof.
  intros Hreq Hfresh. apply request_inv in Hreq. unfold fresh_ids in *.
  destruct Hreq as [ | | | before id amount after a db' _ _ _ _ _ (_ & _ & Hposts) Hseq
                   | tx db' _ _ Htx _ _ Hposts Hseq]; try done.
  - rewrite Hposts, Hseq. eapply Forall_impl; [done|]. intros p ?. cbn in *. lia.
  - rewrite Hposts, Hseq. apply Forall_app. split.
    + eapply Forall_impl; [done|]. intros p ?. cbn in *. lia.
    + apply Forall_fmap, Forall_forall. intros e _. subst tx. cbn. lia.
Qed.

Lemma request_derived (c : Call) (db : Store) :
  derived db → derived (request c db).2.
Proof.
  intros Hder.
  destruct (request_answered c db) as (outcome & db' & -> & Hans). cbn [snd].
  destruct Hans as [ | | | before id amount after a db' _ _ _ _ _ (Haccs & _ & Hposts) _
                   | tx db' _ _ _ Hmoved _ Hposts _]; try done.
  - intros i x Hx. unfold postings_of_account. rewrite Hposts.
    rewrite Haccs in Hx. by apply Hder.
  - intros i x' Hx'.
    destruct (moved_lookup _ _ _ _ _ Hmoved Hx') as (x & Hx & ->).
    unfold postings_of_account. rewrite Hposts, filter_app, total_app, total_on_account.
    cbn. f_equal. by apply Hder.
Qed.

Lemma requests_derived (cs : list Call) : ∀ db,
  derived db → derived (requests cs db).
Proof.
  induction cs as [|c cs IH]; intros db Hder; [done|].
  apply IH. by apply request_derived.
Qed.

(** The postings of the other transactions are not those of the entries. *)
Lemma postings_of_other_transactions tx (entries : list (Z * Z)) (id : Z) :
  id ≠ Transaction.id tx →
  filter (λ p, Posting.transaction_id p = id) (posting_of tx <$> entries) = [].
Proof.
  intros Hne. induction entries as [|e es IH]; [done|].
  rewrite fmap_cons, filter_cons_False; [done|]. cbn. congruence.
Qed.

(** C3. An accepted call adds to the postings one posting for each of its
    entries, under the transaction it returns, and their amounts sum to
    zero.  In a store whose sequence is ahead of the transactions of its
    postings, as it is in the seeded store and stays after every request,
    these are all the postings of that transaction in the store the call
    leaves, so that the postings of the transaction sum to zero; and if the
    postings of every transaction summed to zero before the call, they do
    after it. *)
Theorem accepted_postings_sum_to_zero (c : Call) (db db' : Store) (tx : Transaction.t) :
  request c db = (Return tx, db') →
  postings db' = postings db ++ (posting_of tx <$> entries c)
  ∧ total (posting_of tx <$> entries c) = 0
  ∧ (fresh_ids db →
     postings_of_transaction db' (Transaction.id tx) = posting_of tx <$> entries c
     ∧ total (postings_of_transaction db' (Transaction.id tx)) = 0
     ∧ fresh_ids db')
  ∧ (zero_sum db → zero_sum db').
Proof.
  intros Hreq.
  pose proof (accepted_fresh_ids _ _ _ _ Hreq) as Hkeeps.
  apply request_inv in Hreq.
  inversion Hreq as [ | | | | tx' db'' (Hsum & _) _ Htx _ _ Hposts _]; subst tx' db''.
  assert (Hzero : total (posting_of tx <$> entries c) = 0)
    by (by rewrite total_posting_of).
  split; [done|]. split; [done|]. split.
  - intros Hfresh.
    assert (Hmine : postings_of_transaction db' (Transaction.id tx)
                    = posting_of tx <$> entries c).
    { unfold postings_of_transaction. rewrite Hposts, filter_app.
      rewrite postings_of_new_transaction.
      replace (Transaction.id tx) with (transactions_id_seq db) by (by subst tx).
      by rewrite postings_of_old_transactions. }
    split; [done|]. split; [by rewrite Hmine|by apply Hkeeps].
  - intros Hall id. unfold postings_of_transaction.
    rewrite Hposts, filter_app, total_app.
    fold (postings_of_transaction db id). rewrite Hall.
    destruct (decide (id = Transaction.id tx)) as [->|Hne].
    + rewrite postings_of_new_transaction. lia.
    + by rewrite postings_of_other_transactions.
Qed.

Lemma accepted_postings_sum_to_zero_witness :
  total (postings_of_transaction (request topup_r1 Seed.seeded).2 4) = 0.
Proof.
  destruct (accepted_postings_sum_to_zero
              topup_r1 Seed.seeded (request topup_r1 Seed.seeded).2 topup_r1_row)
    as (_ & _ & Hfresh & _).
  - vm_compute. reflexivity.
  - apply Hfresh. apply (bool_decide_unpack _). vm_compute. exact I.
Defined.

(** C4. If every balance of a store is the sum of the postings on its
    account, it is so again after a request, accepted or not, and so in
    every store a sequence of requests leads to.  The seeded store is such a
    store. *)
Theorem balances_derived_from_postings (db : Store) :
  derived db →
  (∀ c tx db', request c db = (Return tx, db') → derived db')
  ∧ (∀ c, derived (request c db).2)
  ∧ ∀ cs, derived (requests cs db).
Proof.
  intros Hder. split; [|split].
  - intros c tx db' Hreq. pose proof (request_derived c db Hder) as H.
    by rewrite Hreq in H.
  - intros c. by apply request_derived.
  - intros cs. by apply requests_derived.
Qed.

Lemma balances_derived_from_postings_witness :
  derived Seed.seeded
  ∧ derived (requests [topup_r1; unbalanced_genesis; topup_r1] Seed.seeded).
Proof.
  assert (Hseed : derived Seed.seeded)
    by (apply (bool_decide_unpack _); vm_compute; exact I).
  split; [exact Hseed|].
  apply (balances_derived_from_postings Seed.seeded Hseed).
Defined.

(** ** Failure leaves no trace in the store *)

(** Inside the session a refused entry leaves the changes made before it:
    the new transaction and the entries already in.  They are undone when
    the session is closed without a commit. *)
Example refused_call_leaves_the_session_dirty :
  let call := LedgerService.process_transaction "r6" PURCHASE "late refusal"
                [(2, 100); (3, -150); (4, 50)] in
  (call (open Seed.seeded)).1 = Raise (InsufficientFundsError 3)
  ∧ balance_of (view (call (open Seed.seeded)).2) 2 = Some 999999950
  ∧ balance_of (durable (call (open Seed.seeded)).2) 2 = Some 999999850
  ∧ is_Some (transactions (view (call (open Seed.seeded)).2) !! "r6")
  ∧ transactions (durable (call (open Seed.seeded)).2) !! "r6" = None.
Proof. vm_compute. repeat split; eauto. Qed.

(** C5. A request that fails leaves the rows of the three tables as they
    were: no transaction, no posting and no balance of the failed call is in
    the store.  It fails with [ValueError], [IdempotencyError],
    [AccountNotFoundError] of an id of the entries that is not in the store,
    or [InsufficientFundsError], and with nothing else.  In particular a
    balanced call with a new reference and an id that is not in the store
    raises [AccountNotFoundError] of such an id and leaves the store, the
    other accounts of the entries included, exactly as it was.  Inside the
    session, [process_transaction] never touches the committed store, and
    unless it raises [InsufficientFundsError] it leaves the view of the
    session as it was too. *)
Theorem failure_is_atomic (c : Call) (db : Store) :
  (∀ e db', request c db = (Raise e, db') →
     same_rows db db'
     ∧ (e = ValueError (builtins.sum ((entries c).*2))
        ∨ e = IdempotencyError (reference_id c)
        ∨ (∃ id, e = AccountNotFoundError id
                 ∧ id ∈ (entries c).*1 ∧ accounts db !! id = None)
        ∨ ∃ id, e = InsufficientFundsError id ∧ id ∈ (entries c).*1))
  ∧ (builtins.sum ((entries c).*2) = 0 →
     transactions db !! reference_id c = None →
     ∀ unknown, unknown ∈ (entries c).*1 → accounts db !! unknown = None →
     ∃ id, request c db = (Raise (AccountNotFoundError id), db)
           ∧ id ∈ (entries c).*1 ∧ accounts db !! id = None)
  ∧ (∀ s e s',
       LedgerService.process_transaction (reference_id c) (transaction_type c)
         (description c) (entries c) s = (Raise e, s') →
       durable s' = durable s
       ∧ ((∀ id, e ≠ InsufficientFundsError id) → view s' = view s)).
Proof.
  split; [|split].
  - intros e db' Hreq. apply request_inv in Hreq.
    inversion Hreq as [ Hnz | Hz Htaken | id Hz Hnew Hid Hnone
                      | before id amount after a db'' Hwf Hsplit Ha Hne Hneg Hsame Hseq
                      | ]; subst.
    + split; [done|]. by left.
    + split; [done|]. right. by left.
    + split; [done|]. right. right. left. eauto.
    + split; [done|]. right. right. right. exists id. split; [done|].
      rewrite Hsplit, fmap_app, fmap_cons. apply elem_of_app. right. left.
  - intros Hz Hnew unknown Hin Hnone.
    destruct (request_answered c db) as (outcome & db' & Hreq & Hans).
    rewrite Hreq.
    destruct Hans as [ Hnz | _ Htaken | id _ _ Hid Hmissing
                     | ? ? ? ? ? ? (_ & _ & Hall) | ? ? (_ & _ & Hall)].
    + done.
    + rewrite Hnew in Htaken. by destruct Htaken.
    + eauto.
    + destruct (accounts_there _ _ Hall unknown Hin) as [? Hsome]. congruence.
    + destruct (accounts_there _ _ Hall unknown Hin) as [? Hsome]. congruence.
  - intros s e s' Hcall.
    destruct (process_transaction_ending (reference_id c) (transaction_type c)
                (description c) (entries c) s) as (outcome & s1 & Heq & Hend).
    rewrite Hcall in Heq. injection Heq as <- <-.
    inversion Hend as [ | | | before id amount after a s2 evs _ _ _ _ _ Hdur | ]; subst.
    + done.
    + done.
    + done.
    + split; [done|]. intros Hother. by destruct (Hother id).
Qed.

Lemma failure_is_atomic_witness :
  ∃ id, request unknown_account Seed.seeded = (Raise (AccountNotFoundError id), Seed.seeded)
        ∧ id ∈ (entries unknown_account).*1 ∧ accounts Seed.seeded !! id = None.
Proof.
  refine (proj1 (proj2 (failure_is_atomic unknown_account Seed.seeded)) _ _ 999 _ _).
  - vm_compute. reflexivity.
  - vm_compute. reflexivity.
  - vm_compute. right. left.
  - vm_compute. reflexivity.
Defined.

Example scenario_5 :
  request unknown_account Seed.seeded = (Raise (AccountNotFoundError 999), Seed.seeded).
Proof. vm_compute. reflexivity. Qed.

(** ** The fields the engine does not write *)

(** The accounts that differ in their balance only. *)
Lemma moved_fields es db db' id :
  moved es db db' →
  Account.version <$> accounts db' !! id = Account.version <$> accounts db !! id
  ∧ Account.name <$> accounts db' !! id = Account.name <$> accounts db !! id
  ∧ Account.currency <$> accounts db' !! id = Account.currency <$> accounts db !! id
  ∧ Account.user_id <$> accounts db' !! id = Account.user_id <$> accounts db !! id.
Proof.
  intros Hm. rewrite Hm. by destruct (accounts db !! id).
Qed.

(** An account the entries do not name is left as it was. *)
Lemma moved_untouched es db db' id :
  moved es db db' → id ∉ es.*1 → accounts db' !! id = accounts db !! id.
Proof.
  intros Hm Hout. rewrite Hm, net_not_in by done.
  destruct (accounts db !! id) as [a|]; [|done]. cbn.
  by rewrite Z.add_0_r, set_balance_same.
Qed.

(** C10. Whatever the call and however it ends, [process_transaction]
    leaves the [version] of every account as it was, in the view of the
    session and in the committed store, and with it the name, the currency
    and the owner: of an account it writes the balance only, it neither adds
    nor removes an account, and an account that is not among the entries is
    left as it was altogether.  The store a request leaves has the same
    versions too. *)
Theorem version_is_never_written
    (reference_id : string) (type : TransactionType) (description : string)
    (entries : list (Z * Z)) (s : Session) (db : Store) (id : Z) :
  let s' := (LedgerService.process_transaction reference_id type description entries s).2 in
  let db' := (request (Build_Call reference_id type description entries) db).2 in
  Account.version <$> accounts (view s') !! id = Account.version <$> accounts (view s) !! id
  ∧ Account.name <$> accounts (view s') !! id = Account.name <$> accounts (view s) !! id
  ∧ Account.currency <$> accounts (view s') !! id = Account.currency <$> accounts (view s) !! id
  ∧ Account.user_id <$> accounts (view s') !! id = Account.user_id <$> accounts (view s) !! id
  ∧ (id ∉ entries.*1 → accounts (view s') !! id = accounts (view s) !! id)
  ∧ durable s' = durable s
  ∧ Account.version <$> accounts db' !! id = Account.version <$> accounts db !! id.
Proof.
  cbv zeta.
  destruct (process_transaction_ending reference_id type description entries s)
    as (outcome & s' & -> & Hend). cbn [snd].
  destruct (request_answered (Build_Call reference_id type description entries) db)
    as (outcome' & db' & -> & Hans). cbn [snd].
  assert (Hdb : Account.version <$> accounts db' !! id
                = Account.version <$> accounts db !! id).
  { destruct Hans as [ | | | ? ? ? ? ? ? _ _ _ _ _ (Haccs & _) _
                     | ? ? _ _ _ Hmoved _ _ _]; try done.
    - by rewrite Haccs.
    - by apply (moved_fields _ _ _ id) in Hmoved as (? & _). }
  destruct Hend as [ | | | before ? ? ? ? ? ? _ Hsplit _ _ _ Hdur _ _ Hmoved _ _ _
                   | ? ? _ _ Hdur _ _ Hmoved _ _ _].
  - done.
  - done.
  - done.
  - destruct (moved_fields _ _ _ id Hmoved) as (? & ? & ? & ?).
    repeat (split; [done|]). split; [|done].
    intros Hout. apply moved_untouched with before; [done|].
    intros Hin. apply Hout. rewrite Hsplit, fmap_app. apply elem_of_app. by left.
  - destruct (moved_fields _ _ _ id Hmoved) as (? & ? & ? & ?).
    repeat (split; [done|]). split; [|done].
    intros Hout. by apply moved_untouched with entries.
Qed.

Lemma version_is_never_written_witness :
  Account.version
    <$> accounts (view (LedgerService.process_transaction "r1" TOPUP "Wallet Top-up"
                          [(2, -100); (3, 100)] (open Seed.seeded)).2) !! 3
  = Some 0
  ∧ accounts (view (LedgerService.process_transaction "r1" TOPUP "Wallet Top-up"
                      [(2, -100); (3, 100)] (open Seed.seeded)).2) !! 4
    = accounts Seed.seeded !! 4.
Proof.
  split.
  - destruct (version_is_never_written "r1" TOPUP "Wallet Top-up"
                [(2, -100); (3, 100)] (open Seed.seeded) Seed.seeded 3) as (Hversion & _).
    rewrite Hversion. vm_compute. reflexivity.
  - destruct (version_is_never_written "r1" TOPUP "Wallet Top-up"
                [(2, -100); (3, 100)] (open Seed.seeded) Seed.seeded 4)
      as (_ & _ & _ & _ & Huntouched & _).
    apply Huntouched. apply (bool_decide_unpack _). vm_compute. exact I.
Defined.

(** ** The non-negative rule *)

Lemma last_entry_of (es : list (Z * Z)) (id : Z) :
  id ∈ es.*1 →
  ∃ before amount after, es = before ++ (id, amount) :: after ∧ id ∉ after.*1.
Proof.
  induction es as [|[id0 amount0] es IH]; [by intros ?%elem_of_nil|].
  intros Hin. destruct (decide (id ∈ es.*1)) as [Hlater|Hlast].
  - destruct (IH Hlater) as (before & amount & after & -> & Hnot).
    by exists ((id0, amount0) :: before), amount, after.
  - rewrite fmap_cons in Hin. apply elem_of_cons in Hin as [->|]; [|done].
    by exists [], amount0, es.
Qed.

(** The rule entry by entry implies the rule on the net effect. *)
Lemma running_admissible_net (db : Store) (es : list (Z * Z)) :
  running_admissible db es → net_admissible db es.
Proof.
  intros Hrun id a Hin Ha Hne.
  destruct (last_entry_of es id Hin) as (before & amount & after & -> & Hnot).
  specialize (Hrun before id amount after a eq_refl Ha Hne).
  rewrite net_app, net_cons, (net_not_in after) by done. cbn.
  rewrite decide_True by done. lia.
Qed.

(** When no account occurs twice the two rules are one. *)
Lemma net_admissible_running (db : Store) (es : list (Z * Z)) :
  NoDup (es.*1) → net_admissible db es → running_admissible db es.
Proof.
  intros Hnd Hnet before id amount after a -> Ha Hne.
  rewrite fmap_app, fmap_cons in Hnd. cbn in Hnd.
  apply NoDup_app in Hnd as (_ & Hbefore & Hafter).
  apply NoDup_cons in Hafter as [Hafter _].
  assert (Hin : id ∈ (before ++ (id, amount) :: after).*1).
  { rewrite fmap_app, fmap_cons. apply elem_of_app. right. left. }
  specialize (Hnet id a Hin Ha Hne).
  rewrite net_app, net_cons, (net_not_in after) in Hnet by done. cbn in Hnet.
  rewrite decide_True in Hnet by done.
  assert (Hzero : net before id = 0).
  { apply net_not_in. intros Hb. apply (Hbefore id Hb). left. }
  lia.
Qed.

(** A request on balanced entries, a new reference and accounts that are
    all there is accepted exactly when the entries pass the rule one by
    one. *)
Lemma accepted_iff_running (c : Call) (db : Store) :
  well_formed db (reference_id c) (entries c) →
  (∃ tx db', request c db = (Return tx, db')) ↔ running_admissible db (entries c).
Proof.
  intros (Hz & Hnew & Hall). split.
  - intros (tx & db' & Hreq). apply request_inv in Hreq.
    by inversion Hreq.
  - intros Hrun.
    destruct (request_answered c db) as (outcome & db' & Hreq & Hans).
    destruct Hans as [ Hnz | _ Htaken | id _ _ Hid Hmissing
                     | before id amount after a db' _ Hsplit Ha Hne Hneg _ _
                     | tx db' _ _ _ _ _ _ _].
    + done.
    + rewrite Hnew in Htaken. by destruct Htaken.
    + destruct (accounts_there _ _ Hall id Hid) as [? Hsome]. congruence.
    + specialize (Hrun before id amount after a Hsplit Ha Hne). lia.
    + eauto.
Qed.

(** C2. Two things.  In the store a request leaves, an account that is not
    exempt and was not below zero is not below zero: no accepted transaction
    takes it there.  And a call that passes steps 1 to 3 and whose entries
    would leave an account that is not exempt below zero raises
    [InsufficientFundsError], of an account of the entries that is not
    exempt and that the entries up to some entry take below zero; the rows
    of the store are as they were, no posting is in and no balance has
    moved. *)
Theorem non_negative_floor (c : Call) (db db' : Store) (outcome : Outcome Transaction.t) :
  request c db = (outcome, db') →
  (∀ id a', accounts db' !! id = Some a' → non_exempt a' →
     ∃ a, accounts db !! id = Some a ∧ Account.name a = Account.name a'
          ∧ (0 ≤ Account.balance a → 0 ≤ Account.balance a'))
  ∧ (well_formed db (reference_id c) (entries c) →
     (∃ id a, id ∈ (entries c).*1 ∧ accounts db !! id = Some a ∧ non_exempt a
              ∧ Account.balance a + net (entries c) id < 0) →
     same_rows db db'
     ∧ (∀ id, balance_of db' id = balance_of db id)
     ∧ ∃ before id amount after a,
         outcome = Raise (InsufficientFundsError id)
         ∧ entries c = before ++ (id, amount) :: after
         ∧ accounts db !! id = Some a ∧ non_exempt a
         ∧ Account.balance a + net before id + amount < 0).
Proof.
  intros Hreq. apply request_inv in Hreq. split.
  - intros id a' Ha' Hne.
    destruct Hreq as [ | | | before id' amount after a0 db' _ _ _ _ _ (Haccs & _) _
                     | tx db' _ Hrun _ Hmoved _ _ _];
      try (exists a'; by repeat split).
    + rewrite Haccs in Ha'. exists a'. by repeat split.
    + destruct (moved_lookup _ _ _ _ _ Hmoved Ha') as (a & Ha & ->).
      exists a. split; [done|]. split; [done|]. cbn. intros Hpos.
      destruct (decide (id ∈ (entries c).*1)) as [Hin|Hout].
      * by apply (running_admissible_net _ _ Hrun id a).
      * rewrite net_not_in by done. lia.
  - intros (Hz & Hnew & Hall) (id & a & Hin & Ha & Hne & Hneg).
    destruct Hreq as [ Hnz | _ Htaken | id' _ _ Hid Hmissing
                     | before id' amount after a' db' _ Hsplit Ha' Hne' Hneg' Hsame _
                     | tx db' _ Hrun _ _ _ _ _].
    + done.
    + rewrite Hnew in Htaken. by destruct Htaken.
    + destruct (accounts_there _ _ Hall id' Hid) as [? Hsome]. congruence.
    + split; [done|]. split.
      * intros i. unfold balance_of. destruct Hsame as (-> & _). done.
      * by exists before, id', amount, after, a'.
    + pose proof (running_admissible_net _ _ Hrun id a Hin Ha Hne). lia.
Qed.

Lemma non_negative_floor_witness :
  (request spend_150 Seed.seeded).1 = Raise (InsufficientFundsError 3)
  ∧ balance_of (request spend_150 Seed.seeded).2 3 = Some 100
  ∧ postings (request spend_150 Seed.seeded).2 = postings Seed.seeded.
Proof.
  destruct (non_negative_floor spend_150 Seed.seeded
              (request spend_150 Seed.seeded).2 (Raise (InsufficientFundsError 3)))
    as (_ & Hrejected).
  - vm_compute. reflexivity.
  - destruct Hrejected as ((_ & _ & Hposts) & Hbal & _).
    + apply (bool_decide_unpack _). vm_compute. exact I.
    + exists 3, (Account.set_balance (Seed.new_account 2 "Alice's Wallet") 100).
      split; [vm_compute; left|]. split; [vm_compute; reflexivity|].
      split; [|vm_compute; reflexivity].
      apply (bool_decide_unpack _). vm_compute. exact I.
    + split; [vm_compute; reflexivity|]. split; [|exact Hposts].
      rewrite Hbal. vm_compute. reflexivity.
Defined.

(** A request keeps every account that is not exempt at or above zero. *)
Lemma request_keeps_the_floor (c : Call) (db db' : Store) (outcome : Outcome Transaction.t) :
  request c db = (outcome, db') →
  ∀ id a', accounts db' !! id = Some a' → non_exempt a' →
    ∃ a, accounts db !! id = Some a ∧ Account.name a = Account.name a'
         ∧ (0 ≤ Account.balance a → 0 ≤ Account.balance a').
Proof.
  intros Hreq id a' Ha' Hne. apply request_inv in Hreq.
  destruct Hreq as [ | | | before id' amount after a0 db' _ _ _ _ _ (Haccs & _) _
                   | tx db' _ Hrun _ Hmoved _ _ _];
    try (exists a'; by repeat split).
  - rewrite Haccs in Ha'. exists a'. by repeat split.
  - destruct (moved_lookup _ _ _ _ _ Hmoved Ha') as (a & Ha & ->).
    exists a. split; [done|]. split; [done|]. cbn. intros Hpos.
    destruct (decide (id ∈ (entries c).*1)) as [Hin|Hout].
    + by apply (running_admissible_net _ _ Hrun id a).
    + rewrite net_not_in by done. lia.
Qed.

(** The floor holds along any sequence of requests. *)
Corollary floor_along_requests (cs : list Call) : ∀ (db : Store) (id : Z) (a' : Account.t),
  accounts (requests cs db) !! id = Some a' → non_exempt a' →
  ∃ a, accounts db !! id = Some a ∧ Account.name a = Account.name a'
       ∧ (0 ≤ Account.balance a → 0 ≤ Account.balance a').
Proof.
  induction cs as [|c cs IH]; intros db id a' Ha' Hne.
  - exists a'. by repeat split.
  - cbn in Ha'. destruct (IH _ id a' Ha' Hne) as (a1 & Ha1 & Hname1 & Hfloor1).
    assert (Hne1 : non_exempt a1) by (unfold non_exempt in *; by rewrite Hname1).
    destruct (request c db) as [outcome db1] eqn:Hreq.
    destruct (request_keeps_the_floor c db db1 outcome Hreq id a1 Ha1 Hne1)
      as (a & Ha & Hname & Hfloor).
    exists a. split; [done|]. split; [congruence|]. auto.
Qed.

(** ** The same account twice in one call *)

(** C6, as stated, fails: on the seeded store, where Alice's wallet (account
    3) holds 100, the entries [(3, -150); (3, 150)] sum to zero, their
    reference is new, the account is there and their net effect on it is
    zero; yet the call is not accepted, the first entry alone makes it raise
    [InsufficientFundsError]. *)
Lemma net_effect_rule_counterexample :
  well_formed Seed.seeded (reference_id out_and_back) (entries out_and_back)
  ∧ net_admissible Seed.seeded (entries out_and_back)
  ∧ (request out_and_back Seed.seeded).1 = Raise (InsufficientFundsError 3)
  ∧ ¬ ∃ tx db', request out_and_back Seed.seeded = (Return tx, db').
Proof.
  split; [|split; [|split]].
  - apply (bool_decide_unpack _). vm_compute. exact I.
  - intros id a Hid Ha _. vm_compute in Hid.
    assert (id = 3) as ->.
    { apply elem_of_cons in Hid as [->|Hid]; [reflexivity|].
      apply elem_of_cons in Hid as [->|Hid]; [reflexivity|].
      destruct (not_elem_of_nil _ Hid). }
    vm_compute in Ha. injection Ha as <-. vm_compute. discriminate.
  - vm_compute. reflexivity.
  - intros (tx & db' & Heq).
    apply (f_equal fst) in Heq. vm_compute in Heq. discriminate Heq.
Qed.

(** C6, amended. The rule is applied entry by entry, in the order of the
    list, to the balance the entries before have left: a call that passes
    steps 1 to 3 is accepted exactly when, for every entry, the balance of
    its account plus the amounts of the entries on that account up to and
    including it is not negative, or the account is exempt; otherwise it
    raises [InsufficientFundsError] and the rows of the store are as they
    were.  A call that is accepted passes the rule on the net effect too;
    when no account id occurs twice in the entries the two rules are the
    same. *)
Theorem rule_is_applied_entry_by_entry (c : Call) (db : Store) :
  well_formed db (reference_id c) (entries c) →
  ((∃ tx db', request c db = (Return tx, db')) ↔ running_admissible db (entries c))
  ∧ (¬ running_admissible db (entries c) →
     ∃ id db', request c db = (Raise (InsufficientFundsError id), db')
               ∧ same_rows db db')
  ∧ (running_admissible db (entries c) → net_admissible db (entries c))
  ∧ (NoDup ((entries c).*1) →
     net_admissible db (entries c) → running_admissible db (entries c)).
Proof.
  intros Hwf. split; [by apply accepted_iff_running|]. split; [|split].
  - intros Hnot. destruct Hwf as (Hz & Hnew & Hall).
    destruct (request_answered c db) as (outcome & db' & Hreq & Hans).
    destruct Hans as [ Hnz | _ Htaken | id _ _ Hid Hmissing
                     | before id amount after a db' _ _ _ _ _ Hsame _
                     | tx db' _ Hrun _ _ _ _ _].
    + done.
    + rewrite Hnew in Htaken. by destruct Htaken.
    + destruct (accounts_there _ _ Hall id Hid) as [? Hsome]. congruence.
    + eauto.
    + done.
  - apply running_admissible_net.
  - apply net_admissible_running.
Qed.

Lemma rule_is_applied_entry_by_entry_witness :
  ∃ id db', request out_and_back Seed.seeded = (Raise (InsufficientFundsError id), db')
            ∧ same_rows Seed.seeded db'.
Proof.
  refine (proj1 (proj2 (rule_is_applied_entry_by_entry out_and_back Seed.seeded _)) _).
  - apply (bool_decide_unpack _). vm_compute. exact I.
  - intros Hrun.
    specialize (Hrun [] 3 (-150) [(3, 150)]
                  (Account.set_balance (Seed.new_account 2 "Alice's Wallet") 100)
                  eq_refl).
    assert (Hneg : ¬ (0 ≤ 100 + net [] 3 + -150)) by (vm_compute; intros H; by apply H).
    apply Hneg, Hrun.
    + vm_compute. reflexivity.
    + apply (bool_decide_unpack _). vm_compute. exact I.
Defined.

(** ** The locks of a call: one statement, before any change *)

Lemma changes_within_mono (rows rows' : list Z) (e : Event) :
  (∀ id, id ∈ rows → id ∈ rows') → changes_within rows e → changes_within rows' e.
Proof. intros Hsub. destruct e; cbn; auto. Qed.

Lemma changes_within_no_lock (rows : list Z) (e : Event) :
  changes_within rows e → ¬ lock e.
Proof. destruct e; cbn; tauto. Qed.

(** The loop of step 5 sets balances and adds postings, and those of
    accounts of [accounts_map] only; when it runs to its end it has set the
    balance of the account of every entry. *)
Lemma post_entries_events accounts_map tx entries : ∀ s,
  ∃ evs,
    trace (LedgerService.post_entries accounts_map tx entries s).2 = trace s ++ evs
    ∧ Forall (changes_within (elements accounts_map)) evs
    ∧ ((LedgerService.post_entries accounts_map tx entries s).1 = Return tt →
       ∀ id, id ∈ entries.*1 → ∃ balance, SetBalance id balance ∈ evs).
Proof.
  induction entries as [|[id0 amount0] rest IH]; intros s.
  - exists []. rewrite post_entries_nil. cbn [fst snd].
    split; [by rewrite app_nil_r|]. split; [constructor|].
    intros _ id Hid. destruct (not_elem_of_nil _ Hid).
  - rewrite post_entries_cons.
    assert (Hstop : ∀ e : Exception,
              ∃ evs, trace (@Raise unit e, s).2 = trace s ++ evs
                ∧ Forall (changes_within (elements accounts_map)) evs
                ∧ ((@Raise unit e, s).1 = Return tt →
                   ∀ id, id ∈ ((id0, amount0) :: rest).*1 →
                     ∃ balance, SetBalance id balance ∈ evs)).
    { intros e. exists []. cbn [fst snd].
      split; [by rewrite app_nil_r|]. split; [constructor|]. intros [=]. }
    destruct (accounts (view s) !! id0) as [a0|]; [|apply Hstop].
    destruct (decide (id0 ∈ accounts_map)) as [Hin|_]; [|apply Hstop].
    destruct (refused a0 amount0); [apply Hstop|].
    destruct (IH (posted tx id0 amount0 a0 s)) as (evs & Htr & Hevs & Hall).
    exists ([SetBalance id0 (Account.balance a0 + amount0);
             AddPosting (posting_of tx (id0, amount0))] ++ evs).
    split; [rewrite Htr, posted_trace, <- app_assoc; reflexivity|]. split.
    + constructor; [cbn; by apply elem_of_elements|].
      constructor; [cbn; by apply elem_of_elements|done].
    + intros Hret id Hid. rewrite fmap_cons in Hid.
      apply elem_of_cons in Hid as [->|Hid].
      * eexists. left.
      * destruct (Hall Hret id Hid) as [balance Hb]. exists balance.
        right. by right.
Qed.

(** The events a call adds to the trace of its session: none when the
    entries do not balance; the lookup of the reference when it is taken;
    and otherwise the lookup, the lock statement on the ids of the entries
    in ascending order, and then changes only, which of the accounts touch
    none but the rows the statement has locked. *)
Lemma process_transaction_events
    (reference_id : string) (type : TransactionType) (description : string)
    (entries : list (Z * Z)) (s : Session) :
  ∃ evs,
    trace (LedgerService.process_transaction reference_id type description entries s).2
    = trace s ++ evs
    ∧ (builtins.sum (entries.*2) ≠ 0 ∧ evs = []
       ∨ builtins.sum (entries.*2) = 0
         ∧ is_Some (transactions (view s) !! reference_id)
         ∧ evs = [SelectTransaction reference_id]
       ∨ builtins.sum (entries.*2) = 0
         ∧ transactions (view s) !! reference_id = None
         ∧ ∃ rest,
             evs = SelectTransaction reference_id
                   :: SelectAccountsForUpdate (LedgerService.unique_account_ids entries)
                   :: rest
             ∧ Forall (changes_within
                         (Query.rows_for_update
                            (LedgerService.unique_account_ids entries) (view s))) rest)
    ∧ (∀ tx id,
         (LedgerService.process_transaction reference_id type description entries s).1
         = Return tx →
         id ∈ entries.*1 → ∃ balance, SetBalance id balance ∈ evs).
Proof.
  rewrite process_transaction_unfold. cbv zeta.
  destruct (decide (builtins.sum (entries.*2) ≠ 0)) as [Hsum|Hsum].
  { exists []. cbn [fst snd]. split; [by rewrite app_nil_r|].
    split; [by left|]. intros tx id [=]. }
  apply dec_stable in Hsum.
  destruct (decide (is_Some (transactions (view s) !! reference_id))) as [Hdup|Hnew].
  { exists [SelectTransaction reference_id]. cbn [fst snd].
    split; [done|]. split; [right; left; done|]. intros tx id [=]. }
  apply eq_None_not_Some in Hnew.
  set (sel := SelectTransaction reference_id).
  set (ids := LedgerService.unique_account_ids entries).
  set (rows := Query.rows_for_update ids (view s)).
  destruct (decide (length rows ≠ length ids)) as [Hlen|Hlen].
  { exists [sel; SelectAccountsForUpdate ids]. cbn [fst snd].
    split; [unfold traced; cbn [trace]; by rewrite <- app_assoc|].
    split.
    - right. right. split; [done|]. split; [done|]. exists []. by split.
    - intros tx id Hret. by destruct (elements _). }
  set (tx := new_transaction reference_id type description s).
  match goal with
  | |- context [LedgerService.post_entries ?m ?t ?es ?s0] =>
      destruct (post_entries_events m t es s0) as (evs & Htr & Hevs & Hall)
  end.
  exists (sel :: SelectAccountsForUpdate ids :: FlushTransaction tx :: evs).
  destruct (LedgerService.post_entries _ _ _ _) as [[[]|e] s'] eqn:Hrun;
    cbn [fst snd] in *.
  - split; [rewrite Htr; unfold flushed, traced; cbn [trace]; by rewrite <- !app_assoc|].
    split.
    + right. right. split; [done|]. split; [done|]. eexists. split; [done|].
      constructor; [exact I|].
      apply (Forall_impl _ _ _ Hevs). intros ev. apply changes_within_mono.
      intros id. unfold builtins.set. by rewrite elem_of_elements, elem_of_list_to_set.
    + intros _ id _ Hid. destruct (Hall eq_refl id Hid) as [balance Hb].
      exists balance. right. right. by right.
  - split; [rewrite Htr; unfold flushed, traced; cbn [trace]; by rewrite <- !app_assoc|].
    split.
    + right. right. split; [done|]. split; [done|]. eexists. split; [done|].
      constructor; [exact I|].
      apply (Forall_impl _ _ _ Hevs). intros ev. apply changes_within_mono.
      intros id. unfold builtins.set. by rewrite elem_of_elements, elem_of_list_to_set.
    + intros tx' id [=].
Qed.

(** What the code does about its locks: a call whose entries balance and
    whose reference is new sends the lock statement; every change it makes
    comes after that statement and, if it is to an account, is to a row the
    statement has locked; it sends no other lock statement; and a call that
    returns has set the balance of the account of every entry. *)
Lemma call_locks_then_changes
    (reference_id : string) (type : TransactionType) (description : string)
    (entries : list (Z * Z)) (s : Session) :
  ∃ evs,
    trace (LedgerService.process_transaction reference_id type description entries s).2
    = trace s ++ evs
    ∧ (builtins.sum (entries.*2) = 0 → transactions (view s) !! reference_id = None →
       SelectAccountsForUpdate (LedgerService.unique_account_ids entries) ∈ evs)
    ∧ (∀ before e after, evs = before ++ e :: after → lock e →
         e = SelectAccountsForUpdate (LedgerService.unique_account_ids entries)
         ∧ Forall (λ e, ¬ mutation e) before ∧ Forall (λ e, ¬ lock e) after)
    ∧ (∀ before e after, evs = before ++ e :: after → mutation e →
         SelectAccountsForUpdate (LedgerService.unique_account_ids entries) ∈ before
         ∧ changes_within
             (Query.rows_for_update (LedgerService.unique_account_ids entries) (view s)) e)
    ∧ (∀ tx id,
         (LedgerService.process_transaction reference_id type description entries s).1
         = Return tx →
         id ∈ entries.*1 → ∃ balance, SetBalance id balance ∈ evs).
Proof.
  destruct (process_transaction_events reference_id type description entries s)
    as (evs & Htrace & Hshape & Hset).
  exists evs. split; [done|].
  set (lck := SelectAccountsForUpdate (LedgerService.unique_account_ids entries)) in *.
  split; [|split; [|split; [|done]]].
  - intros Hsum Hnew.
    destruct Hshape as [[Hnz _]|[(_ & Hdup & _)|(_ & _ & rest & -> & _)]].
    + done.
    + rewrite Hnew in Hdup. by destruct Hdup.
    + right. left.
  - intros before e after Hsplit Hlock.
    destruct Hshape as [[_ ->]|[(_ & _ & ->)|(_ & _ & rest & -> & Hrest)]].
    + by destruct before.
    + destruct before as [|? [|? ?]]; simplify_eq/=. done.
    + destruct before as [|b0 [|b1 before]]; simplify_eq/=.
      * done.
      * split; [done|]. split; [repeat constructor; cbn; tauto|].
        apply (Forall_impl _ _ _ Hrest). intros ev. apply changes_within_no_lock.
      * exfalso. rewrite Forall_app, Forall_cons in Hrest.
        destruct Hrest as (_ & He & _). by apply (changes_within_no_lock _ _ He).
  - intros before e after Hsplit Hmut.
    destruct Hshape as [[_ ->]|[(_ & _ & ->)|(_ & _ & rest & -> & Hrest)]].
    + by destruct before.
    + destruct before as [|? [|? ?]]; simplify_eq/=. done.
    + destruct before as [|b0 [|b1 before]]; simplify_eq/=.
      * done.
      * done.
      * split; [right; left|].
        rewrite Forall_app, Forall_cons in Hrest. by destruct Hrest as (_ & He & _).
Qed.

(** ** Two calls at once *)

Section two_calls.
Import Locks.

Lemma lock_order_ascending db entries :
  StronglySorted Z.lt (lock_order db entries).
Proof. apply rows_for_update_ascending. Qed.

Lemma to_lock_cons x todo rest : to_lock (x :: todo) rest = x :: to_lock todo rest.
Proof. reflexivity. Qed.

Lemma to_lock_statement (e : Event) rows rest :
  to_lock [] ((e, rows) :: rest) = to_lock rows rest.
Proof. reflexivity. Qed.

(** The plan of a call: nothing; or the lookup of the reference; or the
    lookup, the lock statement with the rows of [lock_order], and then
    changes to those rows, none of which locks a row. *)
Lemma plan_shape (db : Store) (c : Call) :
  (builtins.sum ((entries c).*2) ≠ 0 ∨ is_Some (transactions db !! reference_id c))
  ∧ (plan db c = [] ∨ plan db c = [(SelectTransaction (reference_id c), [])])
  ∨ builtins.sum ((entries c).*2) = 0
    ∧ transactions db !! reference_id c = None
    ∧ ∃ rest,
        plan db c
        = (SelectTransaction (reference_id c), [])
          :: (SelectAccountsForUpdate (LedgerService.unique_account_ids (entries c)),
              lock_order db (entries c))
          :: rest
        ∧ Forall (λ p, changes_within (lock_order db (entries c)) p.1 ∧ p.2 = []) rest.
Proof.
  unfold plan, statements.
  destruct (process_transaction_events (reference_id c) (transaction_type c)
              (description c) (entries c) (open db)) as (evs & -> & Hshape & _).
  cbn [trace open app view] in *.
  destruct Hshape as [[Hnz ->]|[(_ & Hdup & ->)|(Hsum & Hnew & rest & -> & Hrest)]].
  - left. split; [by left|by left].
  - left. split; [by right|by right].
  - right. split; [done|]. split; [done|].
    exists ((λ e, (e, rows_locked db e)) <$> rest). split; [done|].
    apply Forall_fmap. apply (Forall_impl _ _ _ Hrest). intros e He.
    split; [done|]. by destruct e.
Qed.

Lemma nothing_to_lock (rest : list (Event * list Z)) (rows : list Z) :
  Forall (λ p, changes_within rows p.1 ∧ p.2 = []) rest → concat (rest.*2) = [].
Proof.
  induction 1 as [|p rest [_ Hp] _ IH]; [done|].
  rewrite fmap_cons. cbn [concat]. by rewrite Hp, IH.
Qed.

(** The rows a call locks, statement by statement, are those of
    [lock_order] when its entries balance and its reference is new, and none
    otherwise. *)
Lemma plan_rows (db : Store) (c : Call) :
  (builtins.sum ((entries c).*2) = 0 → transactions db !! reference_id c = None →
   to_lock [] (plan db c) = lock_order db (entries c))
  ∧ (builtins.sum ((entries c).*2) ≠ 0 ∨ is_Some (transactions db !! reference_id c) →
     to_lock [] (plan db c) = []).
Proof.
  unfold to_lock.
  destruct (plan_shape db c)
    as [[Hout [-> | ->]]|(Hsum & Hnew & rest & -> & Hrest)].
  - split; [|done]. intros Hsum Hnew. destruct Hout as [Hnz|Hdup]; [done|].
    rewrite Hnew in Hdup. by destruct Hdup.
  - split; [|done]. intros Hsum Hnew. destruct Hout as [Hnz|Hdup]; [done|].
    rewrite Hnew in Hdup. by destruct Hdup.
  - cbn. rewrite (nothing_to_lock _ _ Hrest), app_nil_r. split; [done|].
    intros [Hnz|Hdup]; [done|]. rewrite Hnew in Hdup. by destruct Hdup.
Qed.

Lemma plan_ascending (db : Store) (c : Call) : ascending (Running [] [] (plan db c)).
Proof.
  split; [|by intros h t ?%elem_of_nil].
  unfold to_lock.
  destruct (plan_shape db c) as [[_ [-> | ->]]|(_ & _ & rest & -> & Hrest)];
    [constructor..|].
  cbn. rewrite (nothing_to_lock _ _ Hrest), app_nil_r. apply lock_order_ascending.
Qed.

Lemma plan_covered (db : Store) (c : Call) : covered (Running [] [] (plan db c)).
Proof.
  intros pre id balance rows post Hsplit. right.
  destruct (plan_shape db c) as [[_ [Heq|Heq]]|(_ & _ & rest & Heq & Hrest)];
    rewrite Heq in Hsplit.
  - by destruct pre.
  - destruct pre as [|? [|? ?]]; simplify_eq/=.
  - destruct pre as [|p0 [|p1 pre]]; simplify_eq/=.
    rewrite Forall_app, Forall_cons in Hrest. destruct Hrest as (_ & [Hid _] & _).
    unfold to_lock. cbn. apply elem_of_app. by left.
Qed.

Lemma call_step_ascending others c c' :
  call_step others c c' → ascending c → ascending c'.
Proof.
  intros [held x todo rest Hfree|held e rows rest|held]; [| |done]; cbn [ascending].
  - rewrite to_lock_cons. intros [Hsorted Hbelow].
    apply StronglySorted_inv in Hsorted as [Hsorted Hx].
    split; [done|]. intros h t [->|Hh]%elem_of_cons Ht.
    + rewrite Forall_forall in Hx. by apply Hx.
    + apply Hbelow; [done|]. by right.
  - by rewrite to_lock_statement.
Qed.

Lemma call_step_covered others c c' :
  call_step others c c' → covered c → covered c'.
Proof.
  intros [held x todo rest Hfree|held e rows rest|held]; [| |done]; cbn [covered].
  - intros Hcov pre id balance rows post Hrest.
    destruct (Hcov pre id balance rows post Hrest) as [Hh|Ht]; [left; by right|].
    rewrite to_lock_cons in Ht. apply elem_of_cons in Ht as [->|Ht]; [left; left|by right].
  - intros Hcov pre id balance rows' post Hrest.
    destruct (Hcov ((e, rows) :: pre) id balance rows' post) as [Hh|Ht];
      [by rewrite Hrest|by left|].
    right. by rewrite to_lock_statement in Ht.
Qed.

Lemma step_ascending s s' :
  step s s' → ascending s.1 ∧ ascending s.2 → ascending s'.1 ∧ ascending s'.2.
Proof.
  intros [c1 c1' c2 Hstep|c1 c2 c2' Hstep] [H1 H2]; cbn in *;
    (split; [|]); eauto using call_step_ascending.
Qed.

Lemma step_covered s s' :
  step s s' → covered s.1 ∧ covered s.2 → covered s'.1 ∧ covered s'.2.
Proof.
  intros [c1 c1' c2 Hstep|c1 c2 c2' Hstep] [H1 H2]; cbn [fst snd] in *;
    (split; [|]); eauto using call_step_covered.
Qed.

Lemma step_exclusive s s' : step s s' → exclusive s → exclusive s'.
Proof.
  unfold exclusive.
  intros [c1 c1' c2 Hstep|c1 c2 c2' Hstep] Hex x; cbn in *.
  - destruct Hstep as [held y todo rest Hfree|held e rows rest|held]; cbn in *.
    + intros [->|Hx]%elem_of_cons; [done|by apply Hex].
    + apply Hex.
    + by intros ?%elem_of_nil.
  - destruct Hstep as [held y todo rest Hfree|held e rows rest|held]; cbn in *.
    + intros Hx [->|Hy]%elem_of_cons; [done|]. by apply (Hex x).
    + apply Hex.
    + intros _. apply not_elem_of_nil.
Qed.

Lemma step_moves_left s s' :
  step s s' →
  (moves_left s'.1 + moves_left s'.2 < moves_left s.1 + moves_left s.2)%nat.
Proof.
  intros [c1 c1' c2 [held x todo rest Hfree|held e rows rest|held]
         |c1 c2 c2' [held x todo rest Hfree|held e rows rest|held]];
    cbn [fst snd moves_left]; rewrite ?to_lock_cons, ?to_lock_statement;
    cbn [length]; lia.
Qed.

(** The resource-ordering argument: two calls that lock in ascending
    order are never both waiting for the other. *)
Lemma progress s :
  ascending s.1 → ascending s.2 → s = (Ended, Ended) ∨ ∃ s', step s s'.
Proof.
  destruct s as [c1 c2]. cbn [fst snd]. intros H1 H2.
  destruct c1 as [held1 [|x1 todo1] rest1|].
  - right. destruct rest1 as [|[e rows] rest1]; eexists; apply step_first;
      [apply finish|apply statement].
  - destruct c2 as [held2 [|x2 todo2] rest2|].
    + right. destruct rest2 as [|[e rows] rest2]; eexists; apply step_second;
        [apply finish|apply statement].
    + destruct (decide (x1 ∈ held2)) as [Hwait1|Hfree1].
      * destruct (decide (x2 ∈ held1)) as [Hwait2|Hfree2].
        -- exfalso. destruct H1 as [_ H1], H2 as [_ H2].
           assert (x2 < x1) by (apply H1; [done|rewrite to_lock_cons; left]).
           assert (x1 < x2) by (apply H2; [done|rewrite to_lock_cons; left]). lia.
        -- right. eexists. by apply step_second, acquire.
      * right. eexists. by apply step_first, acquire.
    + right. eexists. apply step_first, acquire. cbn. apply not_elem_of_nil.
  - destruct c2 as [held2 [|x2 todo2] rest2|].
    + right. destruct rest2 as [|[e rows] rest2]; eexists; apply step_second;
        [apply finish|apply statement].
    + right. eexists. apply step_second, acquire. cbn. apply not_elem_of_nil.
    + by left.
Qed.

Lemma completes (n : nat) : ∀ s,
  (moves_left s.1 + moves_left s.2 ≤ n)%nat →
  ascending s.1 → ascending s.2 → rtc step s (Ended, Ended).
Proof.
  induction n as [|n IH]; intros s Hn H1 H2.
  - destruct (progress s H1 H2) as [->|[s' Hstep]]; [done|].
    apply step_moves_left in Hstep. lia.
  - destruct (progress s H1 H2) as [->|[s' Hstep]]; [done|].
    apply rtc_l with s'; [done|].
    destruct (step_ascending _ _ Hstep (conj H1 H2)) as [H1' H2'].
    apply IH; [|done..]. apply step_moves_left in Hstep. lia.
Qed.

Lemma reachable_invariant db1 db2 c1 c2 s :
  rtc step (start db1 db2 c1 c2) s →
  (ascending s.1 ∧ ascending s.2) ∧ (covered s.1 ∧ covered s.2) ∧ exclusive s.
Proof.
  intros Hreach. revert s Hreach. apply rtc_ind_r.
  - split; [|split].
    + split; apply plan_ascending.
    + split; apply plan_covered.
    + intros x. cbn. by intros ?%elem_of_nil.
  - intros s s' _ Hstep (Hasc & Hcov & Hex).
    split; [by apply (step_ascending s)|].
    split; [by apply (step_covered s)|by apply (step_exclusive s)].
Qed.

(** A call that is about to set a balance holds the lock of that row. *)
Lemma change_under_lock held id balance rows rest :
  covered (Running held [] ((SetBalance id balance, rows) :: rest)) → id ∈ held.
Proof.
  intros Hcov. destruct (Hcov [] id balance rows rest eq_refl) as [Hh|Ht]; [done|].
  destruct (not_elem_of_nil _ Ht).
Qed.
End two_calls.

(** C9. From the code: the ids of the lock statement are the distinct ids
    of the entries in ascending order, and the rows it locks ascend; a call
    whose entries balance and whose reference is new sends that statement;
    it sends no other lock statement and changes no row before it; every
    change it makes comes after it and, if it is to an account, is to a row
    the statement has locked; a call that returns has set the balance of the
    account of every entry; and the rows its statements lock, in order, are
    those of [lock_order].  Two calls that run at once, each sending the
    statements [process_transaction] sends on the store as it reads it,
    whatever their entries, whatever each reads and however the store lets
    them take turns: each holds only rows below those it has yet to lock;
    they never hold the same row both; a call that is about to set a balance
    holds the lock of that row, and the other call does not; they never
    reach a state in which neither can move unless both have ended; they
    have fewer moves left after every move; and from every state they reach
    both can run to their end. *)
Theorem canonical_lock_order_completes
    (db1 db2 : Store) (c1 c2 : Call) (s : Locks.CallState * Locks.CallState) :
  rtc Locks.step (Locks.start db1 db2 c1 c2) s →
  (∀ entries db,
     StronglySorted Z.lt (LedgerService.unique_account_ids entries)
     ∧ (∀ id, id ∈ LedgerService.unique_account_ids entries ↔ id ∈ entries.*1)
     ∧ StronglySorted Z.lt (Locks.lock_order db entries))
  ∧ (∀ reference_id type description entries s0,
       ∃ evs,
         trace (LedgerService.process_transaction
                  reference_id type description entries s0).2
         = trace s0 ++ evs
         ∧ (builtins.sum (entries.*2) = 0 →
            transactions (view s0) !! reference_id = None →
            SelectAccountsForUpdate (LedgerService.unique_account_ids entries) ∈ evs)
         ∧ (∀ before e after, evs = before ++ e :: after → lock e →
              e = SelectAccountsForUpdate (LedgerService.unique_account_ids entries)
              ∧ Forall (λ e, ¬ mutation e) before ∧ Forall (λ e, ¬ lock e) after)
         ∧ (∀ before e after, evs = before ++ e :: after → mutation e →
              SelectAccountsForUpdate (LedgerService.unique_account_ids entries) ∈ before
              ∧ changes_within
                  (Query.rows_for_update
                     (LedgerService.unique_account_ids entries) (view s0)) e)
         ∧ (∀ tx id,
              (LedgerService.process_transaction
                 reference_id type description entries s0).1 = Return tx →
              id ∈ entries.*1 → ∃ balance, SetBalance id balance ∈ evs))
  ∧ (∀ db c,
       (builtins.sum ((entries c).*2) = 0 → transactions db !! reference_id c = None →
        Locks.to_lock [] (Locks.plan db c) = Locks.lock_order db (entries c))
       ∧ (builtins.sum ((entries c).*2) ≠ 0
          ∨ is_Some (transactions db !! reference_id c) →
          Locks.to_lock [] (Locks.plan db c) = []))
  ∧ (Locks.ascending s.1 ∧ Locks.ascending s.2)
  ∧ (∀ x, x ∈ Locks.held_by s.1 → x ∉ Locks.held_by s.2)
  ∧ (∀ held id balance rows rest,
       s.1 = Locks.Running held [] ((SetBalance id balance, rows) :: rest) →
       id ∈ held ∧ id ∉ Locks.held_by s.2)
  ∧ (∀ held id balance rows rest,
       s.2 = Locks.Running held [] ((SetBalance id balance, rows) :: rest) →
       id ∈ held ∧ id ∉ Locks.held_by s.1)
  ∧ (s = (Locks.Ended, Locks.Ended) ∨ ∃ s', Locks.step s s')
  ∧ (∀ s', Locks.step s s' →
       (Locks.moves_left s'.1 + Locks.moves_left s'.2
        < Locks.moves_left s.1 + Locks.moves_left s.2)%nat)
  ∧ rtc Locks.step s (Locks.Ended, Locks.Ended).
Proof.
  intros Hreach.
  destruct (reachable_invariant _ _ _ _ _ Hreach) as ([H1 H2] & [Hc1 Hc2] & Hex).
  split.
  { intros entries db. split; [apply unique_account_ids_ascending|].
    split; [intros id; apply unique_account_ids_elem_of|apply lock_order_ascending]. }
  split; [intros; apply call_locks_then_changes|].
  split; [apply plan_rows|].
  split; [done|]. split; [exact Hex|].
  split.
  { intros held id balance rows rest Hs. rewrite Hs in Hc1.
    apply change_under_lock in Hc1. split; [done|].
    apply Hex. by rewrite Hs. }
  split.
  { intros held id balance rows rest Hs. rewrite Hs in Hc2.
    apply change_under_lock in Hc2. split; [done|].
    intros Hother. apply (Hex id Hother). by rewrite Hs. }
  split; [by apply progress|]. split; [apply step_moves_left|].
  by apply (completes (Locks.moves_left s.1 + Locks.moves_left s.2)).
Qed.

Lemma canonical_lock_order_completes_witness :
  (3 ∈ Locks.held_by second_waits.1 ∧ 3 ∉ Locks.held_by second_waits.2)
  ∧ (∃ s', Locks.step second_waits s')
  ∧ rtc Locks.step second_waits (Locks.Ended, Locks.Ended).
Proof.
  destruct (canonical_lock_order_completes Seed.seeded Seed.seeded
              pay_in pay_out second_waits)
    as (_ & _ & _ & _ & _ & Hunder & _ & Hmove & _ & Hend).
  - vm_compute.
    eapply rtc_l; [apply Locks.step_first, Locks.statement|].
    eapply rtc_l; [apply Locks.step_first, Locks.statement|].
    eapply rtc_l; [apply Locks.step_first, Locks.acquire, not_elem_of_nil|].
    eapply rtc_l; [apply Locks.step_first, Locks.acquire, not_elem_of_nil|].
    eapply rtc_l; [apply Locks.step_first, Locks.statement|].
    eapply rtc_l; [apply Locks.step_second, Locks.statement|].
    eapply rtc_l; [apply Locks.step_second, Locks.statement|].
    apply rtc_refl.
  - split; [|split; [|exact Hend]].
    + apply (Hunder [3; 2] 3 90 [] (drop 4 (Locks.plan Seed.seeded pay_in))).
      vm_compute. reflexivity.
    + destruct Hmove as [Heq|Hstep]; [discriminate Heq|exact Hstep].
Defined.

(** ** The endpoints *)

Lemma get_system_account_frame {order : RowOrder} (name : string) (s : Session) :
  durable (Wallet.get_system_account name s).2 = durable s
  ∧ view (Wallet.get_system_account name s).2 = view s.
Proof.
  unfold Wallet.get_system_account, bind, emit, read. cbn.
  by destruct (Wallet.ids_where _ _) as [|? [|? ?]].
Qed.

Lemma get_user_main_account_frame {order : RowOrder} (user_id : Z) (s : Session) :
  durable (Wallet.get_user_main_account user_id s).2 = durable s
  ∧ view (Wallet.get_user_main_account user_id s).2 = view s.
Proof.
  unfold Wallet.get_user_main_account, bind, emit, read. cbn.
  by destruct (Wallet.ids_where _ _) as [|? ?].
Qed.

(** A call that raises has not committed. *)
Lemma process_raises_uncommitted reference_id type description entries s e s' :
  Wallet.process reference_id type description entries s = (Raise e, s') →
  durable s' = durable s.
Proof.
  unfold Wallet.process, bind.
  destruct (process_transaction_ending reference_id type description entries s)
    as (outcome & s1 & -> & Hend).
  destruct Hend as [ | | | ? ? ? ? ? ? ? _ _ _ _ _ Hdur _ _ _ _ _ _
                   | ? ? _ _ Hdur _ _ _ _ _ _]; intros [= <- <-]; done.
Qed.

(** An endpoint: the two lookups, then the call inside [try]. *)
Lemma endpoint_raises_uncommitted {order : RowOrder} (type : TransactionType) (description : string)
    (reference_id : string) (entries : Z → Z → list (Z * Z)) (user_id : Z) s e s' :
  (treasury <- Wallet.get_system_account "Treasury" ;;
   user_wallet <- Wallet.get_user_main_account user_id ;;
   except_WalletException
     (Wallet.process reference_id type description (entries treasury user_wallet))
     Wallet.bad_request) s = (Raise e, s') →
  durable s' = durable s.
Proof.
  unfold bind at 1.
  destruct (get_system_account_frame "Treasury" s) as [Hd1 _].
  destruct (Wallet.get_system_account "Treasury" s) as [[treasury|e1] s1];
    [|by intros [= <- <-]].
  unfold bind at 1.
  destruct (get_user_main_account_frame user_id s1) as [Hd2 _].
  destruct (Wallet.get_user_main_account user_id s1) as [[user_wallet|e2] s2];
    [|intros [= <- <-]; cbn in *; congruence].
  unfold except_WalletException.
  destruct (Wallet.process _ _ _ _ s2) as [[tx|e3] s3] eqn:Hprocess; [done|].
  apply process_raises_uncommitted in Hprocess. cbn in *.
  destruct (is_WalletException e3); intros [= <- <-]; congruence.
Qed.

(** Every endpoint that raises leaves the rows of the store as they were. *)
Lemma endpoints_fail_atomically {order : RowOrder} (request : TransactionRequest.t) (db db' : Store) e :
  get_db (Wallet.top_up request) db = (Raise e, db')
  ∨ get_db (Wallet.bonus request) db = (Raise e, db')
  ∨ get_db (Wallet.spend request) db = (Raise e, db') →
  same_rows db db'.
Proof.
  unfold get_db, Wallet.top_up, Wallet.bonus, Wallet.spend.
  intros [H|[H|H]];
    match type of H with
    | (let (_, _) := ?m (open db) in _) = _ =>
        destruct (m (open db)) as [o s'] eqn:Hrun
    end;
    injection H as -> <-;
    apply (endpoint_raises_uncommitted _ _ _ (λ treasury user_wallet, _)) in Hrun;
    unfold same_rows, close; cbn; by rewrite Hrun.
Qed.

(** Where at most one row matches, the store has no order to choose. *)
Lemma ids_where_Permutation {order : RowOrder} (P : Account.t → bool) (db : Store) :
  Wallet.ids_where P db ≡ₚ Wallet.matching P db.
Proof. apply returned_Permutation. Qed.

Lemma ids_where_single {order : RowOrder} (P : Account.t → bool) (db : Store) :
  (length (Wallet.matching P db) ≤ 1)%nat →
  Wallet.ids_where P db = Wallet.matching P db.
Proof.
  intros Hlen. pose proof (ids_where_Permutation P db) as Hperm.
  destruct (Wallet.matching P db) as [|x [|? ?]].
  - by apply Permutation_nil_r in Hperm.
  - by apply Permutation_singleton_r in Hperm.
  - cbn in Hlen. lia.
Qed.

Lemma get_system_account_any_order {order : RowOrder} (name : string) (s : Session) :
  (length (Wallet.matching (Books.named name) (view s)) ≤ 1)%nat →
  Wallet.get_system_account name s = Wallet.get_system_account (order := by_id) name s.
Proof.
  intros Hlen. unfold Wallet.get_system_account, bind, emit, read. cbn [view].
  change (λ a, bool_decide (Account.name a = name)) with (Books.named name).
  by rewrite (ids_where_single _ _ Hlen).
Qed.

Lemma get_user_main_account_any_order {order : RowOrder} (user_id : Z) (s : Session) :
  (length (Wallet.matching (Books.owned_by user_id) (view s)) ≤ 1)%nat →
  Wallet.get_user_main_account user_id s
  = Wallet.get_user_main_account (order := by_id) user_id s.
Proof.
  intros Hlen. unfold Wallet.get_user_main_account, bind, emit, read. cbn [view].
  change (λ a, bool_decide (Account.user_id a = Some user_id))
    with (Books.owned_by user_id).
  by rewrite (ids_where_single _ _ Hlen).
Qed.

Lemma bind_ext {A B} (m m' : M A) (k k' : A → M B) (s : Session) :
  m s = m' s →
  (∀ a s', m' s = (Return a, s') → k a s' = k' a s') →
  bind m k s = bind m' k' s.
Proof.
  intros Hm Hk. unfold bind. rewrite Hm.
  destruct (m' s) as [[a|e] s'] eqn:Hrun; [by apply Hk|done].
Qed.

(** On a store with at most one Treasury and at most one account of the
    user, the endpoints do the same whatever the order of the store. *)
Lemma endpoints_any_order {order : RowOrder} (request : TransactionRequest.t) (db : Store) :
  (length (Wallet.matching (Books.named "Treasury") db) ≤ 1)%nat →
  (length (Wallet.matching
             (Books.owned_by (TransactionRequest.user_id request)) db) ≤ 1)%nat →
  get_db (Wallet.top_up request) db = get_db (Wallet.top_up (order := by_id) request) db
  ∧ get_db (Wallet.bonus request) db = get_db (Wallet.bonus (order := by_id) request) db
  ∧ get_db (Wallet.spend request) db = get_db (Wallet.spend (order := by_id) request) db.
Proof.
  intros Hone Hmain.
  assert (Hlookups : ∀ (k : Z → Z → M Transaction.t),
            (treasury <- Wallet.get_system_account "Treasury" ;;
             user_wallet <- Wallet.get_user_main_account
                              (TransactionRequest.user_id request) ;;
             k treasury user_wallet) (open db)
            = (treasury <- Wallet.get_system_account (order := by_id) "Treasury" ;;
               user_wallet <- Wallet.get_user_main_account (order := by_id)
                                (TransactionRequest.user_id request) ;;
               k treasury user_wallet) (open db)).
  { intros k. apply bind_ext; [by apply get_system_account_any_order|].
    intros treasury s1 Hrun.
    pose proof (get_system_account_frame (order := by_id) "Treasury" (open db))
      as [_ Hview].
    rewrite Hrun in Hview. cbn [snd view open] in Hview.
    apply bind_ext; [|done].
    apply get_user_main_account_any_order. by rewrite Hview. }
  unfold get_db, Wallet.top_up, Wallet.bonus, Wallet.spend.
  split; [|split].
  - by rewrite (Hlookups (λ treasury user_wallet, _)).
  - by rewrite (Hlookups (λ treasury user_wallet, _)).
  - by rewrite (Hlookups (λ treasury user_wallet, _)).
Qed.

Lemma seeded_rows_single (user_id : Z) :
  (length (Wallet.matching (Books.named "Treasury") Seed.seeded) ≤ 1)%nat
  ∧ (user_id = 2 →
     (length (Wallet.matching (Books.owned_by user_id) Seed.seeded) ≤ 1)%nat).
Proof.
  split; [|intros ->]; apply Nat.eq_le_incl; vm_compute; reflexivity.
Qed.

(** Scenario 1: a top-up of 100 to Alice. *)
Example scenario_1 {order : RowOrder} :
  get_db (Wallet.top_up top_up_100) Seed.seeded = request topup_r1 Seed.seeded
  ∧ balance_of (get_db (Wallet.top_up top_up_100) Seed.seeded).2 3 = Some 200
  ∧ balance_of (get_db (Wallet.top_up top_up_100) Seed.seeded).2 2 = Some 999999750.
Proof.
  destruct (seeded_rows_single 2) as [Hone Hmain]. specialize (Hmain eq_refl).
  rewrite (proj1 (endpoints_any_order top_up_100 Seed.seeded Hone Hmain)).
  clear. split; [|split]; vm_compute; reflexivity.
Qed.

(** Scenario 2: the same top-up again. *)
Example scenario_2 {order : RowOrder} :
  let db1 := (get_db (Wallet.top_up top_up_100) Seed.seeded).2 in
  get_db (Wallet.top_up top_up_100) db1
  = (Raise (HTTPException 400 "Transaction with reference_id 'r1' already exists"), db1).
Proof.
  cbv zeta.
  destruct (seeded_rows_single 2) as [Hone Hmain]. specialize (Hmain eq_refl).
  rewrite (proj1 (endpoints_any_order top_up_100 Seed.seeded Hone Hmain)).
  clear Hone Hmain.
  rewrite (proj1 (endpoints_any_order top_up_100
                    (get_db (Wallet.top_up (order := by_id) top_up_100) Seed.seeded).2
                    ltac:(apply Nat.eq_le_incl; vm_compute; reflexivity)
                    ltac:(apply Nat.eq_le_incl; vm_compute; reflexivity))).
  clear. vm_compute. reflexivity.
Qed.

(** Scenario 3: Alice holds 100 and spends 150. *)
Example scenario_3 {order : RowOrder} :
  (get_db (Wallet.spend spend_150_request) Seed.seeded).1
  = Raise (HTTPException 400 "Insufficient funds in account 3")
  ∧ same_rows Seed.seeded (get_db (Wallet.spend spend_150_request) Seed.seeded).2.
Proof.
  destruct (seeded_rows_single 2) as [Hone Hmain]. specialize (Hmain eq_refl).
  rewrite (proj2 (proj2 (endpoints_any_order spend_150_request Seed.seeded Hone Hmain))).
  clear. split; [vm_compute; reflexivity|].
  split; [|split]; vm_compute; reflexivity.
Qed.

(** * Further properties *)

Import Books MoreScenarios.

(** ** Reading a balance in the session of a call *)

Lemma get_balance_unfold (account_id : Z) (s : Session) :
  LedgerService.get_balance account_id s
  = (match accounts (view s) !! account_id with
     | Some account => Return (Account.balance account)
     | None => Raise (AccountNotFoundError account_id)
     end, traced [SelectAccount account_id] s).
Proof.
  unfold LedgerService.get_balance, Query.account_by_id, bind, emit, read. cbn.
  by destruct (accounts (view s) !! account_id).
Qed.

(** X1. [get_balance] reads the view of its session: asked in the session
    in which [process_transaction] has just returned, before any commit, it
    returns for every account the balance the account had plus the net
    amount of the entries on it, and it raises [AccountNotFoundError] for
    exactly the ids that were not in the store before the call.  It changes
    no row. *)
Theorem get_balance_after_call
    (reference_id : string) (type : TransactionType) (description : string)
    (entries : list (Z * Z)) (s s' : Session) (tx : Transaction.t) (id : Z) :
  LedgerService.process_transaction reference_id type description entries s
  = (Return tx, s') →
  (LedgerService.get_balance id s').1
  = match accounts (view s) !! id with
    | Some account => Return (Account.balance account + net entries id)
    | None => Raise (AccountNotFoundError id)
    end
  ∧ view (LedgerService.get_balance id s').2 = view s'
  ∧ durable (LedgerService.get_balance id s').2 = durable s.
Proof.
  intros Hcall.
  destruct (process_transaction_ending reference_id type description entries s)
    as (outcome & s1 & Heq & Hend).
  rewrite Hcall in Heq. injection Heq as <- <-.
  inversion Hend as [ | | | | s2 evs _ _ Hdur _ _ Hmoved _ _ _]; subst.
  rewrite get_balance_unfold. cbn [fst snd]. rewrite Hmoved.
  split; [|split; [done|done]].
  by destruct (accounts (view s) !! id).
Qed.

Lemma get_balance_after_call_witness :
  (LedgerService.get_balance 3
     (LedgerService.process_transaction "r1" TOPUP "Wallet Top-up"
        [(2, -100); (3, 100)] (open Seed.seeded)).2).1
  = Return 200.
Proof.
  refine (eq_trans
            (proj1 (get_balance_after_call "r1" TOPUP "Wallet Top-up"
                      [(2, -100); (3, 100)] (open Seed.seeded)
                      (LedgerService.process_transaction "r1" TOPUP "Wallet Top-up"
                         [(2, -100); (3, 100)] (open Seed.seeded)).2
                      topup_r1_row 3 _)) _).
  - vm_compute. reflexivity.
  - vm_compute. reflexivity.
Defined.

(** ** Edge cases of a call *)

(** X4. A call with no entries and a new reference is accepted: its
    transaction is recorded under the reference, with no posting, and no
    account is touched.  With a reference that is taken it raises
    [IdempotencyError] like any other call. *)
Theorem empty_entries_are_accepted
    (reference_id : string) (type : TransactionType) (description : string)
    (db : Store) :
  let c := Build_Call reference_id type description [] in
  (transactions db !! reference_id = None →
   ∃ tx db', request c db = (Return tx, db')
             ∧ transactions db' !! reference_id = Some tx
             ∧ postings db' = postings db
             ∧ accounts db' = accounts db)
  ∧ (is_Some (transactions db !! reference_id) →
     request c db = (Raise (IdempotencyError reference_id), db)).
Proof.
  cbv zeta. split.
  - intros Hnew.
    destruct (request_answered (Build_Call reference_id type description []) db)
      as (outcome & db' & Hreq & Hans).
    inversion Hans as [ Hnz | _ Htaken | id _ _ Hid _
                      | before id amount after a db'' _ Hsplit
                      | tx db'' _ _ Htx Hmoved Htxs Hposts _]; subst; cbn in *.
    + done.
    + rewrite Hnew in Htaken. by destruct Htaken.
    + by apply elem_of_nil in Hid.
    + by destruct before.
    + eexists _, db'. split; [done|]. split; [by rewrite Htxs, lookup_insert_eq|].
      split; [by rewrite Hposts, app_nil_r|].
      apply map_eq. intros id. rewrite Hmoved.
      destruct (accounts db !! id) as [a|]; [|done]. cbn.
      by rewrite ?net_nil, Z.add_0_r, set_balance_same.
  - intros Htaken.
    by rewrite (taken_reference (Build_Call reference_id type description []) db Htaken).
Qed.

Lemma empty_entries_are_accepted_witness :
  ∃ tx db', request empty_call Seed.seeded = (Return tx, db')
            ∧ transactions db' !! "r0" = Some tx
            ∧ postings db' = postings Seed.seeded
            ∧ accounts db' = accounts Seed.seeded.
Proof.
  refine (proj1 (empty_entries_are_accepted "r0" REFUND "nothing to post" Seed.seeded) _).
  vm_compute. reflexivity.
Defined.

(** X6. The transaction an accepted call returns carries the reference, the
    type and the description of the call and the number the sequence stood
    at; the reference was free before the call and finds that transaction
    after it, every other reference finds what it found before, and the
    sequence has moved on by one. *)
Theorem accepted_transaction_is_found (c : Call) (db db' : Store) (tx : Transaction.t) :
  request c db = (Return tx, db') →
  tx = {| Transaction.id := transactions_id_seq db;
          Transaction.reference_id := reference_id c;
          Transaction.type := transaction_type c;
          Transaction.description := description c |}
  ∧ transactions db !! reference_id c = None
  ∧ transactions db' !! reference_id c = Some tx
  ∧ (∀ other, other ≠ reference_id c →
       transactions db' !! other = transactions db !! other)
  ∧ transactions_id_seq db' = transactions_id_seq db + 1.
Proof.
  intros Hreq. apply request_inv in Hreq.
  inversion Hreq as [ | | | | tx' db'' (_ & Hnew & _) _ Htx _ Htxs _ Hseq]; subst tx' db''.
  split; [done|]. split; [done|]. split; [by rewrite Htxs, lookup_insert_eq|].
  split; [|done]. intros other Hother. by rewrite Htxs, lookup_insert_ne.
Qed.

Lemma accepted_transaction_is_found_witness :
  transactions (request topup_r1 Seed.seeded).2 !! "r1" = Some topup_r1_row
  ∧ transactions_id_seq (request topup_r1 Seed.seeded).2
    = transactions_id_seq Seed.seeded + 1.
Proof.
  destruct (accepted_transaction_is_found topup_r1 Seed.seeded
              (request topup_r1 Seed.seeded).2 topup_r1_row)
    as (_ & _ & Hfound & _ & Hseq).
  - vm_compute. reflexivity.
  - split; [exact Hfound|exact Hseq].
Defined.

(** X5. When [process_transaction] raises [InsufficientFundsError], its
    session is not as it was: the view holds the new transaction under the
    reference, one posting for every entry before the refused one, and the
    balances those entries have moved; only the committed store is
    untouched.  A caller that committed the session after catching the
    exception would store a part of the transaction. *)
Theorem refused_call_is_partly_applied
    (reference_id : string) (type : TransactionType) (description : string)
    (entries : list (Z * Z)) (s s' : Session) (id : Z) :
  LedgerService.process_transaction reference_id type description entries s
  = (Raise (InsufficientFundsError id), s') →
  ∃ before amount after,
    entries = before ++ (id, amount) :: after
    ∧ transactions (view s') !! reference_id
      = Some (new_transaction reference_id type description s)
    ∧ postings (view s')
      = postings (view s)
        ++ (posting_of (new_transaction reference_id type description s) <$> before)
    ∧ moved before (view s) (view s')
    ∧ durable s' = durable s
    ∧ (commit s').1 = Return tt
    ∧ postings (durable (commit s').2)
      = postings (view s)
        ++ (posting_of (new_transaction reference_id type description s) <$> before).
Proof.
  intros Hcall.
  destruct (process_transaction_ending reference_id type description entries s)
    as (outcome & s1 & Heq & Hend).
  rewrite Hcall in Heq. injection Heq as <- <-.
  inversion Hend as [ | | | before id' amount after a s2 evs _ Hsplit _ _ _ Hdur Htxs _
                          Hmoved Hposts _ _ | ]; subst.
  exists before, amount, after.
  split; [done|]. split; [by rewrite Htxs, lookup_insert_eq|].
  split; [done|]. split; [done|]. split; [done|]. split; [done|]. done.
Qed.

Lemma refused_call_is_partly_applied_witness :
  ∃ before amount after,
    late_refusal = before ++ (3, amount) :: after
    ∧ postings (view (LedgerService.process_transaction "r6" PURCHASE "late refusal"
                        late_refusal (open Seed.seeded)).2)
      = postings Seed.seeded
        ++ (posting_of (new_transaction "r6" PURCHASE "late refusal" (open Seed.seeded))
              <$> before).
Proof.
  destruct (refused_call_is_partly_applied "r6" PURCHASE "late refusal" late_refusal
              (open Seed.seeded)
              (LedgerService.process_transaction "r6" PURCHASE "late refusal"
                 late_refusal (open Seed.seeded)).2 3)
    as (before & amount & after & Hsplit & _ & Hposts & _).
  - vm_compute. reflexivity.
  - exists before, amount, after. split; [exact Hsplit|exact Hposts].
Defined.

(** ** The lock list is canonical *)

(** X3. The list of ids a call locks depends on the set of accounts its
    entries name and on nothing else: two entry lists that name the same
    accounts, in whatever order and however often, give the same list, and
    so lock the same rows in the same order.  The list is never longer than
    the entry list. *)
Theorem lock_list_is_canonical (entries1 entries2 : list (Z * Z)) (db : Store) :
  (∀ id, id ∈ entries1.*1 ↔ id ∈ entries2.*1) →
  LedgerService.unique_account_ids entries1 = LedgerService.unique_account_ids entries2
  ∧ Locks.lock_order db entries1 = Locks.lock_order db entries2
  ∧ (length (LedgerService.unique_account_ids entries1) ≤ length entries1)%nat.
Proof.
  intros Hsame.
  assert (Hids : LedgerService.unique_account_ids entries1
                 = LedgerService.unique_account_ids entries2).
  { apply (StronglySorted_unique Z.le).
    - unfold LedgerService.unique_account_ids, builtins.sorted.
      apply StronglySorted_merge_sort; apply _.
    - unfold LedgerService.unique_account_ids, builtins.sorted.
      apply StronglySorted_merge_sort; apply _.
    - apply NoDup_Permutation; [apply unique_account_ids_NoDup..|].
      intros id. by rewrite !unique_account_ids_elem_of. }
  split; [done|]. split; [unfold Locks.lock_order; by rewrite Hids|].
  rewrite <- (length_fmap fst entries1).
  apply submseteq_length, NoDup_submseteq; [apply unique_account_ids_NoDup|].
  intros id. by rewrite unique_account_ids_elem_of.
Qed.

Lemma lock_list_is_canonical_witness :
  LedgerService.unique_account_ids wallet_to_treasury
  = LedgerService.unique_account_ids treasury_to_wallet.
Proof.
  refine (proj1 (lock_list_is_canonical wallet_to_treasury treasury_to_wallet
                   Seed.seeded _)).
  intros id. unfold wallet_to_treasury, treasury_to_wallet. cbn.
  rewrite !elem_of_cons, !elem_of_nil. tauto.
Defined.

(** ** No request makes or destroys money *)

Lemma sum_Permutation (xs ys : list Z) :
  xs ≡ₚ ys → builtins.sum xs = builtins.sum ys.
Proof. induction 1; cbn; lia. Qed.

Lemma total_balance_lookup (db : Store) (id : Z) (a : Account.t) :
  accounts db !! id = Some a →
  total_balance db
  = Account.balance a
    + builtins.sum (Account.balance <$> (map_to_list (delete id (accounts db))).*2).
Proof.
  intros Ha. unfold total_balance.
  rewrite <- (insert_delete_id (accounts db) id a Ha) at 1.
  rewrite (sum_Permutation _ (Account.balance <$> ((id, a) :: map_to_list (delete id (accounts db))).*2)).
  - done.
  - apply fmap_Permutation, fmap_Permutation, map_to_list_insert, lookup_delete_eq.
Qed.

(** Writing one balance moves the total by the difference. *)
Lemma total_balance_alter (db : Store) (id : Z) (a : Account.t) (b : Z) :
  accounts db !! id = Some a →
  total_balance (with_accounts
                   (alter (λ a, Account.set_balance a b) id (accounts db)) db)
  = total_balance db - Account.balance a + b.
Proof.
  intros Ha.
  rewrite (total_balance_lookup db id a Ha).
  rewrite (total_balance_lookup _ id (Account.set_balance a b)).
  - cbn [with_accounts accounts]. rewrite delete_alter_eq. cbn. lia.
  - cbn [with_accounts accounts]. by rewrite lookup_alter_eq, Ha.
Qed.

Lemma moved_total (es : list (Z * Z)) : ∀ db db',
  moved es db db' →
  Forall (λ id, is_Some (accounts db !! id)) (es.*1) →
  total_balance db' = total_balance db + builtins.sum (es.*2).
Proof.
  induction es as [|[id0 amount0] es IH]; intros db db' Hmoved Hthere.
  - assert (accounts db' = accounts db) as Heq.
    { apply map_eq. intros id. rewrite Hmoved.
      destruct (accounts db !! id) as [a|]; [|done]. cbn.
      by rewrite ?net_nil, Z.add_0_r, set_balance_same. }
    unfold total_balance. rewrite Heq. cbn. lia.
  - rewrite fmap_cons in Hthere. apply Forall_cons in Hthere as [[a0 Ha0] Hthere].
    cbn [fst] in Ha0.
    set (db1 := with_accounts
                  (alter (λ a, Account.set_balance a (Account.balance a0 + amount0))
                     id0 (accounts db)) db).
    assert (Hfirst : ∀ id, accounts db1 !! id
              = (λ a, Account.set_balance a
                        (Account.balance a + (if decide (id0 = id) then amount0 else 0)))
                  <$> accounts db !! id).
    { intros id. unfold db1. cbn [with_accounts accounts].
      destruct (decide (id0 = id)) as [->|Hne].
      - by rewrite lookup_alter_eq, Ha0.
      - rewrite lookup_alter_ne by done.
        destruct (accounts db !! id) as [a|]; [|done]. cbn.
        by rewrite Z.add_0_r, set_balance_same. }
    rewrite (IH db1 db').
    + unfold db1. rewrite (total_balance_alter db id0 a0) by done.
      rewrite fmap_cons. cbn. lia.
    + intros id. rewrite Hmoved, Hfirst, net_cons. cbn [fst snd].
      destruct (accounts db !! id) as [a|]; [|done]. cbn. f_equal.
      unfold Account.set_balance. cbn. f_equal. lia.
    + eapply Forall_impl; [exact Hthere|]. intros id [a Ha]. cbn beta.
      rewrite Hfirst, Ha. eauto.
Qed.

Lemma request_total_balance (c : Call) (db : Store) :
  total_balance (request c db).2 = total_balance db.
Proof.
  destruct (request_answered c db) as (outcome & db' & -> & Hans). cbn [snd].
  destruct Hans as [ | | | ? ? ? ? ? ? _ _ _ _ _ (Haccs & _) _
                   | tx db' (Hz & _ & Hthere) _ _ Hmoved _ _ _]; try done.
  - unfold total_balance. by rewrite Haccs.
  - rewrite (moved_total _ _ _ Hmoved Hthere), Hz. lia.
Qed.

(** X2. The sum of all the balances of the store is the same after a
    request as before it, whether the call was accepted or not, and so along
    every sequence of requests.  It is zero in the seeded store, hence in
    every store the requests lead to from there. *)
Theorem requests_conserve_the_total (cs : list Call) (db : Store) :
  (∀ c, total_balance (request c db).2 = total_balance db)
  ∧ total_balance (requests cs db) = total_balance db
  ∧ total_balance (requests cs Seed.seeded) = 0.
Proof.
  assert (Hall : ∀ cs db, total_balance (requests cs db) = total_balance db).
  { clear. intros cs. induction cs as [|c cs IH]; intros db; [done|].
    change (requests (c :: cs) db) with (requests cs (request c db).2).
    by rewrite IH, request_total_balance. }
  split; [intros c; apply request_total_balance|]. split; [apply Hall|].
  rewrite Hall. vm_compute. reflexivity.
Qed.

(** ** The lookups of the endpoints *)

Lemma ids_where_elem_of {order : RowOrder} (P : Account.t → bool) (db : Store) (id : Z) :
  id ∈ Wallet.ids_where P db ↔ ∃ a, accounts db !! id = Some a ∧ P a.
Proof.
  unfold Wallet.ids_where. rewrite returned_Permutation. unfold Wallet.matching.
  rewrite sorted_elem_of, list_elem_of_fmap. split.
  - intros ([i a] & -> & Hin). apply list_elem_of_filter in Hin as [HP Hin].
    apply elem_of_map_to_list in Hin. eauto.
  - intros (a & Ha & HP). exists (id, a). split; [done|].
    apply list_elem_of_filter. split; [done|]. by apply elem_of_map_to_list.
Qed.

Lemma ids_where_NoDup {order : RowOrder} (P : Account.t → bool) (db : Store) :
  NoDup (Wallet.ids_where P db).
Proof.
  unfold Wallet.ids_where. rewrite returned_Permutation. unfold Wallet.matching.
  apply sorted_NoDup.
  apply (sublist_NoDup _ ((map_to_list (accounts db)).*1));
    [apply NoDup_fst_map_to_list|].
  apply fmap_sublist, sublist_filter.
Qed.

(** The rows a lookup finds depend on the rows that satisfy its test, and a
    test that does not read the balance finds the same rows after the
    entries have been put on the balances; the store may return them in
    another order. *)
Lemma ids_where_moved {order : RowOrder} (P : Account.t → bool) (es : list (Z * Z))
    (db db' : Store) :
  (∀ a b, P (Account.set_balance a b) = P a) →
  moved es db db' → Wallet.ids_where P db' ≡ₚ Wallet.ids_where P db.
Proof.
  intros HP Hmoved. apply NoDup_Permutation; [apply ids_where_NoDup..|].
  intros id. rewrite !ids_where_elem_of, Hmoved. split.
  - intros (a' & Ha' & HPa).
    destruct (accounts db !! id) as [a|]; [|done]. cbn in Ha'. simplify_eq.
    exists a. by rewrite HP in HPa.
  - intros (a & -> & HPa). eexists. split; [done|]. by rewrite HP.
Qed.

Lemma get_system_account_unfold {order : RowOrder} (name : string) (s : Session) :
  Wallet.get_system_account name s
  = (match Wallet.ids_where (named name) (view s) with
     | [] => Raise (HTTPException 500 ("System account '" +:+ name +:+ "' not found"))
     | [account] => Return account
     | _ => Raise MultipleResultsFound
     end, traced [SelectAccountByName name] s).
Proof.
  unfold Wallet.get_system_account, bind, emit, read, named. cbn [view].
  by destruct (Wallet.ids_where _ _) as [|? [|? ?]].
Qed.

Lemma get_user_main_account_unfold {order : RowOrder} (user_id : Z) (s : Session) :
  Wallet.get_user_main_account user_id s
  = (match Wallet.ids_where (owned_by user_id) (view s) with
     | [] => Raise (HTTPException 404 "User wallet not found")
     | account :: _ => Return account
     end, traced [SelectAccountsByUser user_id] s).
Proof.
  unfold Wallet.get_user_main_account, bind, emit, read, owned_by. cbn [view].
  by destruct (Wallet.ids_where _ _) as [|? ?].
Qed.

(** X8. [get_system_account] returns an account exactly when one account
    and no other carries the name, and then it is that account; it raises
    [HTTPException] 500 when no account carries the name and
    [MultipleResultsFound] when two or more do.  It changes no row. *)
Theorem get_system_account_finds_the_one {order : RowOrder} (name : string) (s : Session) :
  match (Wallet.get_system_account name s).1 with
  | Return id =>
      (∃ a, accounts (view s) !! id = Some a ∧ Account.name a = name)
      ∧ ∀ id' a', accounts (view s) !! id' = Some a' → Account.name a' = name → id' = id
  | Raise (HTTPException 500 detail) =>
      detail = ("System account '" +:+ name +:+ "' not found")%string
      ∧ ∀ id a, accounts (view s) !! id = Some a → Account.name a ≠ name
  | Raise MultipleResultsFound =>
      ∃ id1 id2 a1 a2, id1 ≠ id2
        ∧ accounts (view s) !! id1 = Some a1 ∧ Account.name a1 = name
        ∧ accounts (view s) !! id2 = Some a2 ∧ Account.name a2 = name
  | Raise _ => False
  end
  ∧ view (Wallet.get_system_account name s).2 = view s
  ∧ durable (Wallet.get_system_account name s).2 = durable s.
Proof.
  rewrite get_system_account_unfold. cbn [fst snd]. split; [|done].
  pose proof (ids_where_elem_of (named name) (view s)) as Hin.
  pose proof (ids_where_NoDup (named name) (view s)) as Hnd.
  assert (Hnamed : ∀ a, named name a ↔ Account.name a = name)
    by (intros a; apply bool_decide_spec).
  destruct (Wallet.ids_where (named name) (view s)) as [|id [|id2 rest]].
  - split; [done|]. intros id a Ha Hname.
    apply (not_elem_of_nil id), Hin. exists a. split; [done|]. by apply Hnamed.
  - split.
    + destruct (proj1 (Hin id)) as (a & Ha & HP); [left|].
      exists a. split; [done|]. by apply Hnamed.
    + intros id' a' Ha' Hname.
      assert (id' ∈ [id]) as Hone by (apply Hin; exists a'; split; [done|by apply Hnamed]).
      by apply list_elem_of_singleton in Hone.
  - destruct (proj1 (Hin id)) as (a1 & Ha1 & HP1); [left|].
    destruct (proj1 (Hin id2)) as (a2 & Ha2 & HP2); [right; left|].
    exists id, id2, a1, a2. split.
    + apply NoDup_cons in Hnd as [Hnotin _]. intros ->. apply Hnotin. left.
    + split; [done|]. split; [by apply Hnamed|]. split; [done|by apply Hnamed].
Qed.

(** X9. [get_user_main_account] returns an account of the user whenever the
    user has one, and raises [HTTPException] 404 exactly when the user has
    none.  It changes no row. *)
Theorem get_user_main_account_finds_one {order : RowOrder} (user_id : Z) (s : Session) :
  match (Wallet.get_user_main_account user_id s).1 with
  | Return id =>
      ∃ a, accounts (view s) !! id = Some a ∧ Account.user_id a = Some user_id
  | Raise e =>
      e = HTTPException 404 "User wallet not found"
      ∧ ∀ id a, accounts (view s) !! id = Some a → Account.user_id a ≠ Some user_id
  end
  ∧ view (Wallet.get_user_main_account user_id s).2 = view s
  ∧ durable (Wallet.get_user_main_account user_id s).2 = durable s.
Proof.
  rewrite get_user_main_account_unfold. cbn [fst snd]. split; [|done].
  pose proof (ids_where_elem_of (owned_by user_id) (view s)) as Hin.
  assert (Howned : ∀ a, owned_by user_id a ↔ Account.user_id a = Some user_id)
    by (intros a; apply bool_decide_spec).
  destruct (Wallet.ids_where (owned_by user_id) (view s)) as [|id rest].
  - split; [done|]. intros id a Ha Huser.
    apply (not_elem_of_nil id), Hin. exists a. split; [done|]. by apply Howned.
  - destruct (proj1 (Hin id)) as (a & Ha & HP); [left|].
    exists a. split; [done|]. by apply Howned.
Qed.

(** ** The endpoints, case by case *)

Lemma top_up_endpoint {order : RowOrder} request :
  Wallet.top_up request = endpoint TOPUP "Wallet Top-up" credit request.
Proof. reflexivity. Qed.

Lemma bonus_endpoint {order : RowOrder} request :
  Wallet.bonus request = endpoint BONUS "Bonus Credit" credit request.
Proof. reflexivity. Qed.

Lemma spend_endpoint {order : RowOrder} request :
  Wallet.spend request = endpoint PURCHASE "Purchase Item" debit request.
Proof. reflexivity. Qed.

(** The call of an endpoint, in a session that has only read so far, ends
    as a request does. *)
Lemma process_in_session (c : Call) (s : Session) :
  durable s = view s →
  ∃ outcome s',
    Wallet.process (reference_id c) (transaction_type c) (description c) (entries c) s
    = (outcome, s')
    ∧ answered c (view s) outcome (close s').
Proof.
  intros Hclean. unfold Wallet.process, bind.
  destruct (process_transaction_ending (reference_id c) (transaction_type c)
              (description c) (entries c) s) as (outcome & s1 & -> & Hend).
  destruct Hend as [Hsum | Hsum Hdup | id Hsum Hnew Hid Hnone
                   | before id amount after a s' evs Hwf Hsplit Ha Hne Hneg
                       Hdur Htx Hseq Hmoved Hposts Htrace Hevs
                   | s' evs Hwf Hadm Hdur Htx Hseq Hmoved Hposts Htrace Hevs].
  - eexists _, _. split; [done|]. unfold close. rewrite Hclean, store_eta. by constructor.
  - eexists _, _. split; [done|]. unfold close, traced; cbn.
    rewrite Hclean, store_eta. by constructor.
  - eexists _, _. split; [done|]. unfold close, traced; cbn.
    rewrite Hclean, store_eta. by eapply answered_missing.
  - eexists _, _. split; [done|].
    eapply answered_refused; try done.
    unfold close, same_rows. cbn. by rewrite Hdur, Hclean.
  - eexists _, _. split; [done|]. unfold commit, ret, close. cbn.
    by eapply answered_accepted.
Qed.

Lemma endpoint_answered {order : RowOrder} (type : TransactionType) (default : string)
    (entries : Z → Z → Z → list (Z * Z)) (rq : TransactionRequest.t) (db : Store) :
  match Wallet.ids_where (named "Treasury") db with
  | [] =>
      get_db (endpoint type default entries rq) db
      = (Raise (HTTPException 500 ("System account '" +:+ "Treasury" +:+ "' not found")), db)
  | [treasury] =>
      match Wallet.ids_where (owned_by (TransactionRequest.user_id rq)) db with
      | [] =>
          get_db (endpoint type default entries rq) db
          = (Raise (HTTPException 404 "User wallet not found"), db)
      | user_wallet :: _ =>
          ∃ outcome db',
            get_db (endpoint type default entries rq) db = (translated outcome, db')
            ∧ answered (call_of type default
                          (entries treasury user_wallet (TransactionRequest.amount rq)) rq)
                db outcome db'
      end
  | _ => get_db (endpoint type default entries rq) db = (Raise MultipleResultsFound, db)
  end.
Proof.
  assert (Hstart : get_db (endpoint type default entries rq) db
            = match Wallet.ids_where (named "Treasury") db with
              | [] => (Raise (HTTPException 500
                                ("System account '" +:+ "Treasury" +:+ "' not found")), db)
              | [treasury] =>
                  match Wallet.ids_where (owned_by (TransactionRequest.user_id rq)) db with
                  | [] => (Raise (HTTPException 404 "User wallet not found"), db)
                  | user_wallet :: _ =>
                      let (outcome, s') :=
                        except_WalletException
                          (Wallet.process (TransactionRequest.reference_id rq) type
                             (TransactionRequest.description_or rq default)
                             (entries treasury user_wallet (TransactionRequest.amount rq)))
                          Wallet.bad_request
                          (traced [SelectAccountsByUser (TransactionRequest.user_id rq)]
                             (traced [SelectAccountByName "Treasury"] (open db))) in
                      (outcome, close s')
                  end
              | _ => (Raise MultipleResultsFound, db)
              end).
  { unfold get_db, endpoint. unfold bind at 1. rewrite get_system_account_unfold.
    cbn [view open].
    destruct (Wallet.ids_where (named "Treasury") db) as [|treasury [|? ?]].
    - unfold close. cbn. by rewrite store_eta.
    - unfold bind at 1. rewrite get_user_main_account_unfold. cbn [view traced open].
      destruct (Wallet.ids_where (owned_by (TransactionRequest.user_id rq)) db)
        as [|user_wallet rest]; [|done].
      unfold close. cbn. by rewrite store_eta.
    - unfold close. cbn. by rewrite store_eta. }
  rewrite Hstart. clear Hstart.
  destruct (Wallet.ids_where (named "Treasury") db) as [|treasury [|? ?]]; [done| |done].
  destruct (Wallet.ids_where (owned_by (TransactionRequest.user_id rq)) db)
    as [|user_wallet rest]; [done|].
  set (s2 := traced _ (traced _ _)).
  destruct (process_in_session
              (call_of type default
                 (entries treasury user_wallet (TransactionRequest.amount rq)) rq) s2)
    as (outcome & s' & Hprocess & Hans); [done|].
  cbn [call_of reference_id transaction_type description Ledger.entries] in Hprocess.
  unfold except_WalletException. rewrite Hprocess.
  exists outcome, (close s'). split; [|exact Hans].
  destruct outcome as [tx|e]; [done|]. cbn. by destruct (is_WalletException e).
Qed.

(** The two entries of an endpoint balance. *)
Lemma credit_balanced treasury user_wallet amount :
  builtins.sum ((credit treasury user_wallet amount).*2) = 0.
Proof. cbn. lia. Qed.

Lemma debit_balanced treasury user_wallet amount :
  builtins.sum ((debit treasury user_wallet amount).*2) = 0.
Proof. cbn. lia. Qed.

(** What an endpoint raises is never a [WalletException], and never the
    [ValueError] of step 1. *)
Lemma endpoint_raises {order : RowOrder} (type : TransactionType) (default : string)
    (entries : Z → Z → Z → list (Z * Z)) (rq : TransactionRequest.t)
    (db db' : Store) (e : Exception) :
  (∀ treasury user_wallet amount,
     builtins.sum ((entries treasury user_wallet amount).*2) = 0) →
  get_db (endpoint type default entries rq) db = (Raise e, db') →
  ∃ status_code detail,
    e = HTTPException status_code detail
    ∨ (e = MultipleResultsFound ∧ db' = db).
Proof.
  intros Hbalanced Hrun. pose proof (endpoint_answered type default entries rq db) as Hcases.
  destruct (Wallet.ids_where (named "Treasury") db) as [|treasury [|? ?]].
  - rewrite Hcases in Hrun. injection Hrun as <- <-. eexists _, _. by left.
  - destruct (Wallet.ids_where (owned_by (TransactionRequest.user_id rq)) db)
      as [|user_wallet rest].
    + rewrite Hcases in Hrun. injection Hrun as <- <-. eexists _, _. by left.
    + destruct Hcases as (outcome & db1 & Heq & Hans). rewrite Heq in Hrun.
      destruct Hans as [Hnz | | | | ]; cbn [translated is_WalletException] in Hrun.
      * exfalso. apply Hnz. apply Hbalanced.
      * injection Hrun as <- <-. eexists _, _. by left.
      * injection Hrun as <- <-. eexists _, _. by left.
      * injection Hrun as <- <-. eexists _, _. by left.
      * discriminate Hrun.
  - rewrite Hcases in Hrun. injection Hrun as <- <-. exists 0, ""%string. by right.
Qed.

(** X7. Whatever [top_up], [bonus] and [spend] raise is an [HTTPException]
    or, when two accounts are named Treasury, [MultipleResultsFound]: never
    an exception of [app/exceptions.py], which the [except] clause turns
    into an [HTTPException] 400 with its message, and never the
    [ValueError] of unbalanced entries, since the two entries of an
    endpoint always balance.  In particular a request whose reference is
    taken, with the Treasury and the account of the user found, is answered
    by 400 with the message of [IdempotencyError], and the store is left as
    it was. *)
Theorem endpoints_raise_http_exceptions {order : RowOrder} (rq : TransactionRequest.t) (db : Store) :
  (∀ e db',
     get_db (Wallet.top_up rq) db = (Raise e, db')
     ∨ get_db (Wallet.bonus rq) db = (Raise e, db')
     ∨ get_db (Wallet.spend rq) db = (Raise e, db') →
     is_WalletException e = false ∧ ∀ total, e ≠ ValueError total)
  ∧ (∀ treasury user_wallet rest,
       Wallet.ids_where (named "Treasury") db = [treasury] →
       Wallet.ids_where (owned_by (TransactionRequest.user_id rq)) db = user_wallet :: rest →
       is_Some (transactions db !! TransactionRequest.reference_id rq) →
       let answer :=
         (Raise (HTTPException 400
                   ("Transaction with reference_id '"
                    +:+ TransactionRequest.reference_id rq +:+ "' already exists")), db) in
       get_db (Wallet.top_up rq) db = answer
       ∧ get_db (Wallet.bonus rq) db = answer
       ∧ get_db (Wallet.spend rq) db = answer).
Proof.
  split.
  - intros e db' Hrun.
    assert (∃ status_code detail,
              e = HTTPException status_code detail ∨ (e = MultipleResultsFound ∧ db' = db))
      as (status_code & detail & [->| [-> _]]).
    { destruct Hrun as [Hrun|[Hrun|Hrun]].
      - rewrite top_up_endpoint in Hrun.
        eapply endpoint_raises; [apply credit_balanced|exact Hrun].
      - rewrite bonus_endpoint in Hrun.
        eapply endpoint_raises; [apply credit_balanced|exact Hrun].
      - rewrite spend_endpoint in Hrun.
        eapply endpoint_raises; [apply debit_balanced|exact Hrun]. }
    + by split.
    + by split.
  - intros treasury user_wallet rest Htreasury Huser Htaken. cbv zeta.
    assert (Hone : ∀ type default entries,
              (∀ t w a, builtins.sum ((entries t w a).*2) = 0) →
              get_db (endpoint type default entries rq) db
              = (Raise (HTTPException 400
                          ("Transaction with reference_id '"
                           +:+ TransactionRequest.reference_id rq +:+ "' already exists")),
                 db)).
    { intros type default entries Hbalanced.
      pose proof (endpoint_answered type default entries rq db) as Hcases.
      rewrite Htreasury, Huser in Hcases.
      destruct Hcases as (outcome & db1 & -> & Hans).
      destruct Hans as [Hnz | _ _ | ? _ Hnew | ? ? ? ? ? ? (_ & Hnew & _) | ? ? (_ & Hnew & _)];
        cbn in *.
      - exfalso. apply Hnz, Hbalanced.
      - done.
      - rewrite Hnew in Htaken. by destruct Htaken.
      - rewrite Hnew in Htaken. by destruct Htaken.
      - rewrite Hnew in Htaken. by destruct Htaken. }
    rewrite top_up_endpoint, bonus_endpoint, spend_endpoint.
    split; [|split]; apply Hone; intros; cbn; lia.
Qed.

Lemma endpoints_raise_http_exceptions_witness :
  get_db (Wallet.top_up (order := by_id) top_up_100)
    (get_db (Wallet.top_up (order := by_id) top_up_100) Seed.seeded).2
  = (Raise (HTTPException 400 "Transaction with reference_id 'r1' already exists"),
     (get_db (Wallet.top_up (order := by_id) top_up_100) Seed.seeded).2).
Proof.
  refine (proj1 (proj2 (endpoints_raise_http_exceptions (order := by_id) top_up_100
                          (get_db (Wallet.top_up (order := by_id) top_up_100)
                             Seed.seeded).2)
                   2 3 [] _ _ _)).
  - vm_compute. reflexivity.
  - vm_compute. reflexivity.
  - vm_compute. eauto.
Defined.

(** ** What the endpoints do to the two accounts *)

Lemma net_two (id1 id2 amount1 amount2 id : Z) :
  net [(id1, amount1); (id2, amount2)] id
  = (if decide (id1 = id) then amount1 else 0)
    + (if decide (id2 = id) then amount2 else 0).
Proof. rewrite !net_cons, net_nil. cbn. lia. Qed.

Lemma named_treasury_is_exempt {order : RowOrder} (db : Store) (treasury : Z) (a : Account.t) :
  treasury ∈ Wallet.ids_where (named "Treasury") db →
  accounts db !! treasury = Some a → ¬ non_exempt a.
Proof.
  intros Hin Ha Hne. apply ids_where_elem_of in Hin as (a' & Ha' & Hnamed).
  rewrite Ha in Ha'. injection Ha' as <-.
  apply bool_decide_spec in Hnamed. apply Hne. rewrite Hnamed.
  unfold LedgerService.exempt. right. left.
Qed.

(** An accepted call on two entries over two different accounts. *)
Lemma two_entries_moved (id1 id2 amount1 amount2 : Z) (db db' : Store) :
  id1 ≠ id2 →
  moved [(id1, amount1); (id2, amount2)] db db' →
  balance_of db' id1 = (λ b, b + amount1) <$> balance_of db id1
  ∧ balance_of db' id2 = (λ b, b + amount2) <$> balance_of db id2
  ∧ ∀ other, other ≠ id1 → other ≠ id2 → accounts db' !! other = accounts db !! other.
Proof.
  intros Hne Hmoved. split; [|split].
  - unfold balance_of. rewrite Hmoved, net_two.
    rewrite decide_True, decide_False by done.
    destruct (accounts db !! id1); [|done]. cbn. f_equal. lia.
  - unfold balance_of. rewrite Hmoved, net_two.
    rewrite decide_False, decide_True by done.
    destruct (accounts db !! id2); [|done]. cbn. f_equal.
  - intros other H1 H2. rewrite Hmoved, net_two.
    rewrite !decide_False by done.
    destruct (accounts db !! other); [|done]. cbn.
    by rewrite Z.add_0_r, set_balance_same.
Qed.

(** The endpoint of a credit, with the Treasury and the account of the user
    found, a new reference, and an account that the amount does not leave
    below zero. *)
Lemma credit_endpoint_accepted {order : RowOrder} (type : TransactionType) (default : string)
    (rq : TransactionRequest.t) (db : Store) (treasury user_wallet : Z)
    (rest : list Z) (wallet : Account.t) :
  Wallet.ids_where (named "Treasury") db = [treasury] →
  Wallet.ids_where (owned_by (TransactionRequest.user_id rq)) db = user_wallet :: rest →
  transactions db !! TransactionRequest.reference_id rq = None →
  treasury ≠ user_wallet →
  accounts db !! user_wallet = Some wallet →
  0 ≤ Account.balance wallet + TransactionRequest.amount rq →
  ∃ tx db',
    get_db (endpoint type default credit rq) db = (Return tx, db')
    ∧ balance_of db' user_wallet
      = Some (Account.balance wallet + TransactionRequest.amount rq)
    ∧ balance_of db' treasury
      = (λ b, b - TransactionRequest.amount rq) <$> balance_of db treasury
    ∧ (∀ other, other ≠ treasury → other ≠ user_wallet →
         accounts db' !! other = accounts db !! other)
    ∧ postings db'
      = postings db ++ [posting_of tx (treasury, - TransactionRequest.amount rq);
                        posting_of tx (user_wallet, TransactionRequest.amount rq)].
Proof.
  intros Htreasury Huser Hnew Hdiff Hwallet Hfloor.
  pose proof (endpoint_answered type default credit rq db) as Hcases.
  rewrite Htreasury, Huser in Hcases.
  destruct Hcases as (outcome & db' & Hrun & Hans).
  assert (Hin : treasury ∈ Wallet.ids_where (named "Treasury") db)
    by (rewrite Htreasury; left).
  destruct (proj1 (ids_where_elem_of _ _ _) Hin) as (at_ & Hat & _).
  inversion Hans as [ Hnz | _ Htaken | id _ _ Hid Hnone
                    | before id amount after a db'' _ Hsplit Ha Hne Hneg _ _
                    | tx db'' _ _ Htx Hmoved _ Hposts _]; subst;
    cbn [call_of entries reference_id] in *; unfold credit in *.
  - exfalso. apply Hnz. cbn. lia.
  - rewrite Hnew in Htaken. by destruct Htaken.
  - exfalso. cbn in Hid.
    apply elem_of_cons in Hid as [->|Hid]; [congruence|].
    apply elem_of_cons in Hid as [->|Hid]; [congruence|]. by apply elem_of_nil in Hid.
  - exfalso. destruct before as [|e1 [|e2 [|e3 before]]]; simplify_eq/=.
    + eapply (named_treasury_is_exempt db); eassumption.
    + rewrite net_cons, net_nil in Hneg. cbn in Hneg.
      rewrite decide_False in Hneg by done. lia.
  - eexists _, db'. split; [exact Hrun|].
    destruct (two_entries_moved _ _ _ _ _ _ Hdiff Hmoved) as (Ht & Hw & Hother).
    split; [|split; [|split]].
    + rewrite Hw. unfold balance_of. by rewrite Hwallet.
    + rewrite Ht. destruct (balance_of db treasury); [|done]. cbn. f_equal; lia.
    + exact Hother.
    + by rewrite Hposts.
Qed.

(** X10. [get_user_main_account] takes [accounts[0]] of a [SELECT] that has
    no [ORDER BY]: the account of the user is the one the store returns
    first.  [top_up] and [bonus], when one account is named Treasury, the
    account [user_wallet] that the store returns first for the user is
    another one, the reference is new and the amount does not leave that
    account below zero (as no positive amount does to an account at or above
    zero), are accepted, whatever the order of the store: that account goes
    up by the amount, the Treasury goes down by it, whatever it holds, no
    other account changes, the other accounts of the user among them, and
    the two postings are added. *)
Theorem top_up_and_bonus_pay_in {order : RowOrder}
    (rq : TransactionRequest.t) (db : Store) (treasury user_wallet : Z)
    (rest : list Z) (wallet : Account.t) :
  Wallet.ids_where (named "Treasury") db = [treasury] →
  Wallet.ids_where (owned_by (TransactionRequest.user_id rq)) db = user_wallet :: rest →
  transactions db !! TransactionRequest.reference_id rq = None →
  treasury ≠ user_wallet →
  accounts db !! user_wallet = Some wallet →
  0 ≤ Account.balance wallet + TransactionRequest.amount rq →
  ∀ endpoint, endpoint = Wallet.top_up ∨ endpoint = Wallet.bonus →
  ∃ tx db',
    get_db (endpoint rq) db = (Return tx, db')
    ∧ balance_of db' user_wallet
      = Some (Account.balance wallet + TransactionRequest.amount rq)
    ∧ balance_of db' treasury
      = (λ b, b - TransactionRequest.amount rq) <$> balance_of db treasury
    ∧ (∀ other, other ≠ treasury → other ≠ user_wallet →
         accounts db' !! other = accounts db !! other)
    ∧ postings db'
      = postings db ++ [posting_of tx (treasury, - TransactionRequest.amount rq);
                        posting_of tx (user_wallet, TransactionRequest.amount rq)].
Proof.
  intros Htreasury Huser Hnew Hdiff Hwallet Hfloor endpoint [->| ->].
  - rewrite top_up_endpoint. by eapply credit_endpoint_accepted.
  - rewrite bonus_endpoint. by eapply credit_endpoint_accepted.
Qed.

(** Alice has the accounts 3 and 5, and the store returns 5 first: the
    bonus goes to account 5, and account 3 is as it was. *)
Lemma top_up_and_bonus_pay_in_witness :
  ∃ tx db',
    get_db (Wallet.bonus (order := savings_first) bonus_50) two_wallets = (Return tx, db')
    ∧ balance_of db' 5 = Some (0 + 50)
    ∧ accounts db' !! 3 = accounts two_wallets !! 3.
Proof.
  destruct (top_up_and_bonus_pay_in (order := savings_first) bonus_50 two_wallets 2 5 [3]
              (Seed.new_account 2 "Alice's Savings"))
    with (endpoint := Wallet.bonus (order := savings_first))
    as (tx & db' & Hrun & Hwallet & _ & Hother & _).
  - vm_compute. reflexivity.
  - vm_compute. reflexivity.
  - vm_compute. reflexivity.
  - discriminate.
  - vm_compute. reflexivity.
  - vm_compute. discriminate.
  - by right.
  - exists tx, db'. split; [exact Hrun|]. split; [exact Hwallet|].
    apply Hother; discriminate.
Defined.

(** X11. [spend], when one account is named Treasury, the account
    [user_wallet] that the store returns first for the user is another one
    and is not exempt, and the reference is new, is accepted exactly when
    that account holds the amount, whatever the order of the store and
    whatever the other accounts of the user hold: then the account goes
    down by the amount, the Treasury goes up by it and no other account
    changes; otherwise the answer is [HTTPException] 400 with the message of
    [InsufficientFundsError] for that account, and no row changes. *)
Theorem spend_needs_the_amount {order : RowOrder}
    (rq : TransactionRequest.t) (db : Store) (treasury user_wallet : Z)
    (rest : list Z) (wallet : Account.t) :
  Wallet.ids_where (named "Treasury") db = [treasury] →
  Wallet.ids_where (owned_by (TransactionRequest.user_id rq)) db = user_wallet :: rest →
  transactions db !! TransactionRequest.reference_id rq = None →
  treasury ≠ user_wallet →
  accounts db !! user_wallet = Some wallet →
  non_exempt wallet →
  ∃ db',
    if decide (TransactionRequest.amount rq ≤ Account.balance wallet) then
      (∃ tx, get_db (Wallet.spend rq) db = (Return tx, db'))
      ∧ balance_of db' user_wallet
        = Some (Account.balance wallet - TransactionRequest.amount rq)
      ∧ balance_of db' treasury
        = (λ b, b + TransactionRequest.amount rq) <$> balance_of db treasury
      ∧ (∀ other, other ≠ treasury → other ≠ user_wallet →
           accounts db' !! other = accounts db !! other)
    else
      get_db (Wallet.spend rq) db
      = (Raise (HTTPException 400
                  ("Insufficient funds in account " +:+ pretty user_wallet)), db')
      ∧ same_rows db db'.
Proof.
  intros Htreasury Huser Hnew Hdiff Hwallet Hnon.
  rewrite spend_endpoint.
  pose proof (endpoint_answered PURCHASE "Purchase Item" debit rq db) as Hcases.
  rewrite Htreasury, Huser in Hcases.
  destruct Hcases as (outcome & db' & Hrun & Hans).
  assert (Hin : treasury ∈ Wallet.ids_where (named "Treasury") db)
    by (rewrite Htreasury; left).
  destruct (proj1 (ids_where_elem_of _ _ _) Hin) as (at_ & Hat & _).
  exists db'.
  inversion Hans as [ Hnz | _ Htaken | id _ _ Hid Hnone
                    | before id amount after a db'' _ Hsplit Ha Hne Hneg Hsame _
                    | tx db'' _ Hrunning Htx Hmoved _ _ _]; subst;
    cbn [call_of entries reference_id] in *; unfold debit in *.
  - exfalso. apply Hnz. cbn. lia.
  - rewrite Hnew in Htaken. by destruct Htaken.
  - exfalso. cbn in Hid.
    apply elem_of_cons in Hid as [->|Hid]; [congruence|].
    apply elem_of_cons in Hid as [->|Hid]; [congruence|]. by apply elem_of_nil in Hid.
  - destruct before as [|e1 [|e2 [|e3 before]]]; simplify_eq/=.
    + rewrite net_nil in Hneg. rewrite decide_False by lia. done.
    + exfalso. eapply (named_treasury_is_exempt db); eassumption.
  - specialize (Hrunning [] user_wallet (- TransactionRequest.amount rq)
                  [(treasury, TransactionRequest.amount rq)] wallet eq_refl Hwallet Hnon).
    rewrite net_nil in Hrunning. rewrite decide_True by lia.
    split; [eauto|].
    destruct (two_entries_moved _ _ _ _ _ _ (not_eq_sym Hdiff) Hmoved) as (Hw & Ht & Hother).
    split; [|split].
    + rewrite Hw. unfold balance_of. rewrite Hwallet. cbn. f_equal; lia.
    + exact Ht.
    + intros other H1 H2. by apply Hother.
Qed.

(** Alice has the accounts 3, which holds 100, and 5, which is empty, and
    the store returns 5 first: a purchase of 30 is refused for account 5. *)
Lemma spend_needs_the_amount_witness :
  ∃ db',
    get_db (Wallet.spend (order := savings_first) spend_30) two_wallets
    = (Raise (HTTPException 400 ("Insufficient funds in account " +:+ pretty 5)), db')
    ∧ same_rows two_wallets db'.
Proof.
  destruct (spend_needs_the_amount (order := savings_first) spend_30 two_wallets 2 5 [3]
              (Seed.new_account 2 "Alice's Savings"))
    as (db' & Hanswer).
  - vm_compute. reflexivity.
  - vm_compute. reflexivity.
  - vm_compute. reflexivity.
  - discriminate.
  - vm_compute. reflexivity.
  - apply (bool_decide_unpack _). vm_compute. exact I.
  - exists db'. exact Hanswer.
Defined.

(** ** The balance endpoint *)

Lemma rows_where_spec {order : RowOrder} (P : Account.t → bool) (db : Store) :
  (WalletBalance.rows_where P db).*1 = Wallet.ids_where P db
  ∧ Forall (λ row, accounts db !! row.1 = Some row.2 ∧ P row.2)
      (WalletBalance.rows_where P db).
Proof.
  unfold WalletBalance.rows_where.
  assert (Hall : Forall (λ id, ∃ a, accounts db !! id = Some a ∧ P a)
                   (Wallet.ids_where P db)).
  { apply Forall_forall. intros id. apply ids_where_elem_of. }
  induction Hall as [|id ids (a & Ha & HP) _ [IH1 IH2]]; [done|].
  cbn. rewrite Ha. cbn. split; [by rewrite IH1|]. by constructor.
Qed.

Lemma get_balance_endpoint_unfold {order : RowOrder} (user_id : Z) (s : Session) :
  WalletBalance.get_balance user_id s
  = (Return {| BalanceResponse.user_id := user_id;
               BalanceResponse.total_balance := shown_total user_id (view s);
               BalanceResponse.accounts :=
                 AccountSchema.of_row
                   <$> WalletBalance.rows_where (owned_by user_id) (view s) |},
     traced [SelectAccountsByUser user_id] s).
Proof. reflexivity. Qed.

(** X12. The balance endpoint never raises: for a user without an account
    it answers with a total of zero and no account.  Its answer lists
    exactly the accounts of the user, each once, with the fields of their
    rows, and its total is the sum of the balances it lists.  It changes no
    row. *)
Theorem balance_endpoint_lists_the_accounts {order : RowOrder} (user_id : Z) (s : Session) :
  ∃ response,
    (WalletBalance.get_balance user_id s).1 = Return response
    ∧ BalanceResponse.user_id response = user_id
    ∧ BalanceResponse.total_balance response
      = builtins.sum (AccountSchema.balance <$> BalanceResponse.accounts response)
    ∧ NoDup (AccountSchema.id <$> BalanceResponse.accounts response)
    ∧ (∀ acc, acc ∈ BalanceResponse.accounts response ↔
         ∃ id a, accounts (view s) !! id = Some a
                 ∧ Account.user_id a = Some user_id
                 ∧ acc = AccountSchema.of_row (id, a))
    ∧ ((∀ id a, accounts (view s) !! id = Some a → Account.user_id a ≠ Some user_id) →
       BalanceResponse.total_balance response = 0
       ∧ BalanceResponse.accounts response = [])
    ∧ view (WalletBalance.get_balance user_id s).2 = view s
    ∧ durable (WalletBalance.get_balance user_id s).2 = durable s.
Proof.
  rewrite get_balance_endpoint_unfold. eexists. split; [done|]. cbn [fst snd].
  cbn [BalanceResponse.user_id BalanceResponse.total_balance BalanceResponse.accounts].
  destruct (rows_where_spec (owned_by user_id) (view s)) as [Hids Hrows].
  assert (Howned : ∀ a, owned_by user_id a ↔ Account.user_id a = Some user_id)
    by (intros a; apply bool_decide_spec).
  split; [done|]. split.
  { unfold shown_total. by rewrite <- list_fmap_compose. }
  split.
  { rewrite <- list_fmap_compose.
    change (AccountSchema.id ∘ AccountSchema.of_row) with (@fst Z Account.t).
    rewrite Hids. apply ids_where_NoDup. }
  split.
  { intros acc. rewrite list_elem_of_fmap. split.
    - intros ([id a] & -> & Hin). rewrite Forall_forall in Hrows.
      destruct (Hrows _ Hin) as [Ha HP]. exists id, a.
      split; [done|]. split; [by apply Howned|done].
    - intros (id & a & Ha & Huser & ->). exists (id, a). split; [done|].
      assert (id ∈ (WalletBalance.rows_where (owned_by user_id) (view s)).*1) as Hin.
      { rewrite Hids. apply ids_where_elem_of. exists a. split; [done|]. by apply Howned. }
      apply list_elem_of_fmap in Hin as ([id' a'] & Heq & Hin). cbn in Heq. subst id'.
      rewrite Forall_forall in Hrows. destruct (Hrows _ Hin) as [Ha' _].
      cbn in Ha'. rewrite Ha in Ha'. by injection Ha' as <-. }
  split; [|done].
  intros Hnone.
  assert (WalletBalance.rows_where (owned_by user_id) (view s) = []) as Hempty.
  { destruct (WalletBalance.rows_where (owned_by user_id) (view s)) as [|[id a] rows];
      [done|].
    apply Forall_cons in Hrows as [[Ha HP] _]. cbn in Ha, HP.
    destruct (Hnone id a Ha). by apply Howned. }
  unfold shown_total. by rewrite Hempty.
Qed.

(** The total shown is the sum, over the accounts of the user, of their
    balances. *)
Lemma shown_total_by_id {order : RowOrder} (user_id : Z) (db : Store) :
  shown_total user_id db
  = builtins.sum ((λ id, default 0 (balance_of db id))
                    <$> Wallet.ids_where (owned_by user_id) db).
Proof.
  unfold shown_total.
  destruct (rows_where_spec (owned_by user_id) db) as [Hids Hrows].
  rewrite <- Hids, <- list_fmap_compose. f_equal.
  apply Forall_fmap_ext. eapply Forall_impl; [exact Hrows|].
  intros [id a] [Ha _]. cbn in *. unfold balance_of. by rewrite Ha.
Qed.

Lemma owned_by_set_balance user_id a b :
  owned_by user_id (Account.set_balance a b) = owned_by user_id a.
Proof. reflexivity. Qed.

Lemma named_set_balance name a b :
  named name (Account.set_balance a b) = named name a.
Proof. reflexivity. Qed.

Lemma shown_total_moved {order : RowOrder} (user_id : Z) (es : list (Z * Z)) (db db' : Store) :
  moved es db db' →
  shown_total user_id db'
  = shown_total user_id db
    + builtins.sum (net es <$> Wallet.ids_where (owned_by user_id) db).
Proof.
  intros Hmoved. rewrite !shown_total_by_id.
  rewrite (sum_Permutation _ _
             (fmap_Permutation (λ id, default 0 (balance_of db' id)) _ _
                (ids_where_moved _ es db db' (owned_by_set_balance user_id) Hmoved))).
  assert (Hall : Forall (λ id, is_Some (accounts db !! id))
                   (Wallet.ids_where (owned_by user_id) db)).
  { apply Forall_forall. intros id (a & Ha & _)%ids_where_elem_of. eauto. }
  induction Hall as [|id ids [a Ha] _ IH]; [done|].
  rewrite !fmap_cons. cbn [builtins.sum]. rewrite IH.
  unfold balance_of at 1 3. rewrite Hmoved, Ha. cbn. lia.
Qed.

Lemma sum_indicator (x v : Z) (ids : list Z) :
  NoDup ids →
  builtins.sum ((λ id, if decide (x = id) then v else 0) <$> ids)
  = if decide (x ∈ ids) then v else 0.
Proof.
  induction 1 as [|id ids Hnotin Hnd IH]; [done|].
  rewrite fmap_cons. cbn [builtins.sum]. rewrite IH.
  destruct (decide (x = id)) as [->|Hne].
  - rewrite decide_False by done. rewrite decide_True by left. lia.
  - destruct (decide (x ∈ ids)) as [Hin|Hout].
    + rewrite decide_True by (by right). lia.
    + rewrite decide_False; [lia|]. by intros [?|?]%elem_of_cons.
Qed.

(** The two entries of an endpoint, summed over the accounts of a user who
    owns the wallet and not the Treasury. *)
Lemma net_two_over (treasury user_wallet x y : Z) (ids : list Z) :
  NoDup ids → treasury ∉ ids → user_wallet ∈ ids →
  builtins.sum (net [(treasury, x); (user_wallet, y)] <$> ids) = y
  ∧ builtins.sum (net [(user_wallet, y); (treasury, x)] <$> ids) = y.
Proof.
  intros Hnd Hout Hin.
  assert (Hsplit : ∀ (f g : Z → Z) (l : list Z),
            builtins.sum ((λ id, f id + g id) <$> l)
            = builtins.sum (f <$> l) + builtins.sum (g <$> l)).
  { intros f g l. induction l as [|i l IH]; [done|]. rewrite !fmap_cons. cbn. lia. }
  split.
  - rewrite (list_fmap_ext _ (λ id, (if decide (treasury = id) then x else 0)
                                    + (if decide (user_wallet = id) then y else 0)))
      by (intros; apply net_two).
    rewrite Hsplit, !sum_indicator by done.
    rewrite decide_False, decide_True by done. lia.
  - rewrite (list_fmap_ext _ (λ id, (if decide (user_wallet = id) then y else 0)
                                    + (if decide (treasury = id) then x else 0)))
      by (intros; apply net_two).
    rewrite Hsplit, !sum_indicator by done.
    rewrite decide_True, decide_False by done. lia.
Qed.

Lemma balance_endpoint_lists_the_accounts_witness :
  ∃ response,
    (WalletBalance.get_balance (order := by_id) 99 (open Seed.seeded)).1 = Return response
    ∧ BalanceResponse.total_balance response = 0
    ∧ BalanceResponse.accounts response = [].
Proof.
  destruct (balance_endpoint_lists_the_accounts (order := by_id) 99 (open Seed.seeded))
    as (response & Hreturn & _ & _ & _ & _ & Hnone & _).
  exists response. split; [exact Hreturn|]. apply Hnone.
  apply (bool_decide_unpack
           (map_Forall (λ _ a, Account.user_id a ≠ Some 99) (accounts Seed.seeded))).
  vm_compute. exact I.
Defined.

(** ** The endpoints and the total they show *)

(** An endpoint that returns has found the Treasury and the account of the
    user, and has put its two entries on the balances. *)
Lemma endpoint_returns {order : RowOrder} (type : TransactionType) (default : string)
    (entries : Z → Z → Z → list (Z * Z)) (rq : TransactionRequest.t)
    (db db' : Store) (tx : Transaction.t) :
  get_db (endpoint type default entries rq) db = (Return tx, db') →
  ∃ treasury user_wallet rest,
    Wallet.ids_where (named "Treasury") db = [treasury]
    ∧ Wallet.ids_where (owned_by (TransactionRequest.user_id rq)) db = user_wallet :: rest
    ∧ moved (entries treasury user_wallet (TransactionRequest.amount rq)) db db'.
Proof.
  intros Hrun. pose proof (endpoint_answered type default entries rq db) as Hcases.
  destruct (Wallet.ids_where (named "Treasury") db) as [|treasury [|? ?]].
  - rewrite Hcases in Hrun. discriminate Hrun.
  - destruct (Wallet.ids_where (owned_by (TransactionRequest.user_id rq)) db)
      as [|user_wallet rest].
    + rewrite Hcases in Hrun. discriminate Hrun.
    + destruct Hcases as (outcome & db1 & Heq & Hans). rewrite Heq in Hrun.
      exists treasury, user_wallet, rest. split; [done|]. split; [done|].
      destruct Hans as [ | | | | tx1 db1 _ _ _ Hmoved _ _ _];
        cbn [translated is_WalletException] in Hrun; try discriminate Hrun.
      by injection Hrun as <- <-.
  - rewrite Hcases in Hrun. discriminate Hrun.
Qed.

(** What an accepted endpoint does to the total shown for its user, when
    the Treasury is not an account of that user; and the lookups find the
    same accounts afterwards. *)
Lemma endpoint_shown_total {order : RowOrder} (type : TransactionType) (default : string)
    (entries : Z → Z → Z → list (Z * Z)) (sign : Z) (rq : TransactionRequest.t)
    (db db' : Store) (tx : Transaction.t) :
  (∀ treasury user_wallet amount ids,
     NoDup ids → treasury ∉ ids → user_wallet ∈ ids →
     builtins.sum (net (entries treasury user_wallet amount) <$> ids) = sign * amount) →
  (∀ treasury, treasury ∈ Wallet.ids_where (named "Treasury") db →
     treasury ∉ Wallet.ids_where (owned_by (TransactionRequest.user_id rq)) db) →
  get_db (endpoint type default entries rq) db = (Return tx, db') →
  shown_total (TransactionRequest.user_id rq) db'
  = shown_total (TransactionRequest.user_id rq) db + sign * TransactionRequest.amount rq
  ∧ (∀ name, Wallet.ids_where (named name) db' ≡ₚ Wallet.ids_where (named name) db)
  ∧ (∀ user_id,
       Wallet.ids_where (owned_by user_id) db' ≡ₚ Wallet.ids_where (owned_by user_id) db).
Proof.
  intros Hentries Hapart Hrun.
  destruct (endpoint_returns _ _ _ _ _ _ _ Hrun)
    as (treasury & user_wallet & rest & Htreasury & Huser & Hmoved).
  split; [|split].
  - rewrite (shown_total_moved _ _ _ _ Hmoved), Hentries; [done| | |].
    + apply ids_where_NoDup.
    + apply Hapart. rewrite Htreasury. left.
    + rewrite Huser. left.
  - intros name. by apply (ids_where_moved _ _ _ _ (named_set_balance name) Hmoved).
  - intros user_id. by apply (ids_where_moved _ _ _ _ (owned_by_set_balance user_id) Hmoved).
Qed.

Lemma credit_over treasury user_wallet amount ids :
  NoDup ids → treasury ∉ ids → user_wallet ∈ ids →
  builtins.sum (net (credit treasury user_wallet amount) <$> ids) = 1 * amount.
Proof.
  intros Hnd Hout Hin. unfold credit.
  rewrite (proj1 (net_two_over _ _ _ _ _ Hnd Hout Hin)). lia.
Qed.

Lemma debit_over treasury user_wallet amount ids :
  NoDup ids → treasury ∉ ids → user_wallet ∈ ids →
  builtins.sum (net (debit treasury user_wallet amount) <$> ids) = -1 * amount.
Proof.
  intros Hnd Hout Hin. unfold debit.
  rewrite (proj2 (net_two_over _ _ _ _ _ Hnd Hout Hin)). lia.
Qed.

(** X13. For a user who does not own the Treasury, an accepted [top_up] or
    [bonus] raises the total that the balance endpoint shows for the user by
    the amount of the request, and an accepted [spend] lowers it by the
    amount. *)
Theorem endpoints_move_the_shown_total {order : RowOrder}
    (rq : TransactionRequest.t) (db db' : Store) (tx : Transaction.t) :
  (∀ treasury, treasury ∈ Wallet.ids_where (named "Treasury") db →
     treasury ∉ Wallet.ids_where (owned_by (TransactionRequest.user_id rq)) db) →
  (get_db (Wallet.top_up rq) db = (Return tx, db')
   ∨ get_db (Wallet.bonus rq) db = (Return tx, db') →
   shown_total (TransactionRequest.user_id rq) db'
   = shown_total (TransactionRequest.user_id rq) db + TransactionRequest.amount rq)
  ∧ (get_db (Wallet.spend rq) db = (Return tx, db') →
     shown_total (TransactionRequest.user_id rq) db'
     = shown_total (TransactionRequest.user_id rq) db - TransactionRequest.amount rq).
Proof.
  intros Hapart. split.
  - intros [Hrun|Hrun].
    + rewrite top_up_endpoint in Hrun.
      destruct (endpoint_shown_total _ _ _ 1 _ _ _ _ credit_over Hapart Hrun) as [-> _]. lia.
    + rewrite bonus_endpoint in Hrun.
      destruct (endpoint_shown_total _ _ _ 1 _ _ _ _ credit_over Hapart Hrun) as [-> _]. lia.
  - intros Hrun. rewrite spend_endpoint in Hrun.
    destruct (endpoint_shown_total _ _ _ (-1) _ _ _ _ debit_over Hapart Hrun) as [-> _]. lia.
Qed.

Lemma endpoints_move_the_shown_total_witness :
  shown_total (order := by_id) 2
    (get_db (Wallet.spend (order := by_id) spend_30) Seed.seeded).2
  = shown_total (order := by_id) 2 Seed.seeded - 30.
Proof.
  refine (proj2 (endpoints_move_the_shown_total (order := by_id) spend_30 Seed.seeded
                   (get_db (Wallet.spend (order := by_id) spend_30) Seed.seeded).2
                   {| Transaction.id := 4; Transaction.reference_id := "r7";
                      Transaction.type := PURCHASE;
                      Transaction.description := "Purchase Item" |} _) _).
  - intros treasury Htreasury. vm_compute in Htreasury.
    apply list_elem_of_singleton in Htreasury. subst treasury.
    apply (bool_decide_unpack _). vm_compute. exact I.
  - vm_compute. reflexivity.
Defined.

(** X14. The run of [verification_script.py]: for a user who does not own
    the Treasury, if a top-up, a bonus and a spend of that user are accepted
    one after the other, the total shown at the end is the total shown at
    the start plus the first two amounts minus the third, which is what the
    script asserts. *)
Theorem verification_script_holds {order : RowOrder}
    (user_id : Z) (top bonus_ spent : TransactionRequest.t)
    (db db1 db2 db3 : Store) (tx1 tx2 tx3 : Transaction.t) :
  TransactionRequest.user_id top = user_id →
  TransactionRequest.user_id bonus_ = user_id →
  TransactionRequest.user_id spent = user_id →
  (∀ treasury, treasury ∈ Wallet.ids_where (named "Treasury") db →
     treasury ∉ Wallet.ids_where (owned_by user_id) db) →
  get_db (Wallet.top_up top) db = (Return tx1, db1) →
  get_db (Wallet.bonus bonus_) db1 = (Return tx2, db2) →
  get_db (Wallet.spend spent) db2 = (Return tx3, db3) →
  shown_total user_id db3
  = shown_total user_id db + TransactionRequest.amount top
    + TransactionRequest.amount bonus_ - TransactionRequest.amount spent.
Proof.
  intros <- Hbonus Hspent Hapart Hrun1 Hrun2 Hrun3.
  rewrite top_up_endpoint in Hrun1. rewrite bonus_endpoint in Hrun2.
  rewrite spend_endpoint in Hrun3.
  destruct (endpoint_shown_total _ _ _ 1 _ _ _ _ credit_over Hapart Hrun1)
    as (Htotal1 & Hnamed1 & Howned1).
  assert (Hapart1 : ∀ treasury, treasury ∈ Wallet.ids_where (named "Treasury") db1 →
            treasury ∉ Wallet.ids_where (owned_by (TransactionRequest.user_id bonus_)) db1).
  { intros treasury. rewrite Hnamed1, Howned1, Hbonus. apply Hapart. }
  destruct (endpoint_shown_total _ _ _ 1 _ _ _ _ credit_over Hapart1 Hrun2)
    as (Htotal2 & Hnamed2 & Howned2).
  assert (Hapart2 : ∀ treasury, treasury ∈ Wallet.ids_where (named "Treasury") db2 →
            treasury ∉ Wallet.ids_where (owned_by (TransactionRequest.user_id spent)) db2).
  { intros treasury. rewrite Hnamed2, Howned2, Hnamed1, Howned1, Hspent. apply Hapart. }
  destruct (endpoint_shown_total _ _ _ (-1) _ _ _ _ debit_over Hapart2 Hrun3)
    as (Htotal3 & _ & _).
  rewrite Hbonus in Htotal2. rewrite Hspent in Htotal3. lia.
Qed.

Lemma verification_script_holds_witness :
  shown_total (order := by_id) 2
    (get_db (Wallet.spend (order := by_id) spend_30)
       (get_db (Wallet.bonus (order := by_id) bonus_50)
          (get_db (Wallet.top_up (order := by_id) top_up_100) Seed.seeded).2).2).2
  = shown_total (order := by_id) 2 Seed.seeded + 100 + 50 - 30.
Proof.
  refine (verification_script_holds (order := by_id) 2 top_up_100 bonus_50 spend_30 Seed.seeded
            (get_db (Wallet.top_up (order := by_id) top_up_100) Seed.seeded).2
            (get_db (Wallet.bonus (order := by_id) bonus_50)
               (get_db (Wallet.top_up (order := by_id) top_up_100) Seed.seeded).2).2
            (get_db (Wallet.spend (order := by_id) spend_30)
               (get_db (Wallet.bonus (order := by_id) bonus_50)
                  (get_db (Wallet.top_up (order := by_id) top_up_100) Seed.seeded).2).2).2
            topup_r1_row
            {| Transaction.id := 5; Transaction.reference_id := "r2";
               Transaction.type := BONUS; Transaction.description := "Bonus Credit" |}
            {| Transaction.id := 6; Transaction.reference_id := "r7";
               Transaction.type := PURCHASE; Transaction.description := "Purchase Item" |}
            eq_refl eq_refl eq_refl _ _ _ _).
  - intros treasury Htreasury. vm_compute in Htreasury.
    apply list_elem_of_singleton in Htreasury. subst treasury.
    apply (bool_decide_unpack _). vm_compute. exact I.
  - vm_compute. reflexivity.
  - vm_compute. reflexivity.
  - vm_compute. reflexivity.
Defined.

(** ** Every store the requests reach from the seeded store *)

Lemma zero_sum_check (db : Store) :
  Forall (λ p, total (postings_of_transaction db (Posting.transaction_id p)) = 0)
    (postings db) →
  zero_sum db.
Proof.
  intros Hall id. unfold postings_of_transaction.
  destruct (filter (λ p, Posting.transaction_id p = id) (postings db)) as [|p ps] eqn:Hps;
    [done|].
  assert (p ∈ filter (λ p, Posting.transaction_id p = id) (postings db)) as Hin
    by (rewrite Hps; left).
  apply list_elem_of_filter in Hin as [<- Hin].
  rewrite <- Hps. rewrite Forall_forall in Hall. by apply Hall.
Qed.

Lemma request_zero_sum (c : Call) (db : Store) :
  zero_sum db → zero_sum (request c db).2.
Proof.
  intros Hzero.
  destruct (request_answered c db) as (outcome & db' & -> & Hans). cbn [snd].
  destruct Hans as [ | | | ? ? ? ? ? ? _ _ _ _ _ (_ & _ & Hposts) _
                   | tx db' (Hsum & _) _ _ _ _ Hposts _]; try done.
  - intros i. unfold postings_of_transaction. rewrite Hposts. apply Hzero.
  - intros i. unfold postings_of_transaction.
    rewrite Hposts, filter_app, total_app.
    fold (postings_of_transaction db i). rewrite Hzero.
    destruct (decide (i = Transaction.id tx)) as [->|Hne].
    + rewrite postings_of_new_transaction, total_posting_of. lia.
    + by rewrite postings_of_other_transactions.
Qed.

Lemma request_same_accounts (c : Call) (db : Store) (id : Z) :
  is_Some (accounts (request c db).2 !! id) ↔ is_Some (accounts db !! id).
Proof.
  destruct (request_answered c db) as (outcome & db' & -> & Hans). cbn [snd].
  destruct Hans as [ | | | ? ? ? ? ? ? _ _ _ _ _ (Haccs & _) _
                   | tx db' _ _ _ Hmoved _ _ _]; try done.
  - by rewrite Haccs.
  - by apply (moved_is_Some _ _ _ _ Hmoved).
Qed.

(** X15. In every store that a sequence of requests leads to from the
    seeded store: the accounts are the four of the seed; the wallets of
    Alice and Bob, and any account that is not exempt, are not below zero;
    every balance is the sum of the postings on its account; the postings of
    every transaction sum to zero; the balances sum to zero; and the
    sequence is ahead of the transactions of the postings. *)
Theorem seeded_ledger_stays_sound (cs : list Call) :
  (∀ id, is_Some (accounts (requests cs Seed.seeded) !! id) ↔ id ∈ [1; 2; 3; 4])
  ∧ (∀ id a, accounts (requests cs Seed.seeded) !! id = Some a → non_exempt a →
       0 ≤ Account.balance a)
  ∧ derived (requests cs Seed.seeded)
  ∧ zero_sum (requests cs Seed.seeded)
  ∧ total_balance (requests cs Seed.seeded) = 0
  ∧ fresh_ids (requests cs Seed.seeded).
Proof.
  assert (Hkeep : ∀ (I : Store → Prop),
            (∀ c db, I db → I (request c db).2) →
            ∀ cs db, I db → I (requests cs db)).
  { intros I Hstep cs'. induction cs' as [|c cs' IH]; intros db HI; [done|].
    change (requests (c :: cs') db) with (requests cs' (request c db).2).
    by apply IH, Hstep. }
  split; [|split; [|split; [|split; [|split]]]].
  - intros id.
    apply (Hkeep (λ db, is_Some (accounts db !! id) ↔ id ∈ [1; 2; 3; 4])).
    + intros c db <-. apply request_same_accounts.
    + assert (Hdom : dom (accounts Seed.seeded) = (list_to_set [1; 2; 3; 4] : gset Z))
        by (apply (bool_decide_unpack _); vm_compute; exact I).
      rewrite <- elem_of_dom, Hdom. apply elem_of_list_to_set.
  - intros id a Ha Hne.
    destruct (floor_along_requests cs Seed.seeded id a Ha Hne) as (a0 & Ha0 & Hname & Hfloor).
    apply Hfloor.
    assert (Hne0 : non_exempt a0) by (unfold non_exempt in *; by rewrite Hname).
    clear Ha Hname Hfloor Hne. revert id a0 Ha0 Hne0.
    apply (bool_decide_unpack
             (map_Forall (λ _ a0, non_exempt a0 → 0 ≤ Account.balance a0)
                (accounts Seed.seeded))).
    vm_compute. exact I.
  - apply requests_derived. apply (bool_decide_unpack _). vm_compute. exact I.
  - apply (Hkeep zero_sum); [intros c db; apply request_zero_sum|].
    apply zero_sum_check. apply (bool_decide_unpack _). vm_compute. exact I.
  - apply (Hkeep (λ db, total_balance db = 0)).
    + intros c db <-. apply request_total_balance.
    + vm_compute. reflexivity.
  - apply (Hkeep fresh_ids).
    + intros c db Hfresh. destruct (request c db) as [outcome db'] eqn:Hreq.
      by apply (accepted_fresh_ids c db db' outcome).
    + apply (bool_decide_unpack _). vm_compute. exact I.
Qed.
